(** * crontinuous: a shallow embedding of [crontinuous.go]

    The development follows the Go file top-down: the parts of the Go
    standard library the program calls ([unicode/utf8], [strings],
    [crypto/sha1], [encoding/hex]) come first, then the [Runnable] job with
    its output buffer, the crontab parser and the reload sequence, and at the
    end the properties of the specification.

    Go strings and byte slices are sequences of bytes: they are lists of
    [ascii] here (one [ascii] is one byte).  Go's [int] is a 64-bit integer;
    every integer of the program is a length or a cursor far below 2^63, so
    [Z] is used and no operation wraps.

    What the program gets from outside is kept by its outcome: the lines a
    [bufio.Scanner] returns and its final error, the errors of [os/exec]
    and [os.Open], the verdict of [cron.Parse] on a schedule.  A run-time
    panic and [log.Fatal] end a computation with the state reached. *)

From Stdlib Require Import ZArith Ascii String List Bool Lia Permutation.
Import ListNotations.

Local Open Scope Z_scope.

(** ** Bytes and strings *)

Definition gostring := list ascii.

Definition str (s : string) : gostring := list_ascii_of_string s.

Definition byteval (c : ascii) : Z := Z.of_N (N_of_ascii c).

Definition len {A : Type} (l : list A) : Z := Z.of_nat (List.length l).

Definition gostring_eqb (a b : gostring) : bool :=
  if list_eq_dec ascii_dec a b then true else false.

(** ** unicode/utf8 *)

Module utf8.

Definition RuneError : Z := 65533.
Definition RuneSelf : Z := 128.
Definition UTFMax : Z := 4.

(** The [first] table together with [acceptRanges]: for a leading byte,
    the length of the sequence and the range accepted for the second
    byte; [None] for the bytes that start no sequence.  ASCII is handled
    before the table is consulted. *)
Definition first (b : Z) : option (nat * (Z * Z)) :=
  if b <? 194 then None
  else if b <? 224 then Some (2%nat, (128, 191))
  else if b =? 224 then Some (3%nat, (160, 191))
  else if b <? 237 then Some (3%nat, (128, 191))
  else if b =? 237 then Some (3%nat, (128, 159))
  else if b <? 240 then Some (3%nat, (128, 191))
  else if b =? 240 then Some (4%nat, (144, 191))
  else if b <? 244 then Some (4%nat, (128, 191))
  else if b =? 244 then Some (4%nat, (128, 143))
  else None.

Definition cont (b : Z) : bool := (128 <=? b) && (b <=? 191).

(** [DecodeRuneInString]: the rune at the front of [s] and its width in
    bytes; an invalid or truncated sequence gives [(RuneError, 1)]. *)
Definition DecodeRuneInString (s : gostring) : Z * nat :=
  match s with
  | [] => (RuneError, 0%nat)
  | c0 :: t =>
    let s0 := byteval c0 in
    if s0 <? RuneSelf then (s0, 1%nat)
    else match first s0 with
    | None => (RuneError, 1%nat)
    | Some (sz, (lo, hi)) =>
      if (List.length s <? sz)%nat then (RuneError, 1%nat)
      else match t with
      | [] => (RuneError, 1%nat)
      | c1 :: t1 =>
        let s1 := byteval c1 in
        if (s1 <? lo) || (hi <? s1) then (RuneError, 1%nat)
        else if (sz <=? 2)%nat then
          (Z.lor (Z.shiftl (Z.land s0 31) 6) (Z.land s1 63), 2%nat)
        else match t1 with
        | [] => (RuneError, 1%nat)
        | c2 :: t2 =>
          let s2 := byteval c2 in
          if negb (cont s2) then (RuneError, 1%nat)
          else if (sz <=? 3)%nat then
            (Z.lor (Z.lor (Z.shiftl (Z.land s0 15) 12)
                          (Z.shiftl (Z.land s1 63) 6))
                   (Z.land s2 63), 3%nat)
          else match t2 with
          | [] => (RuneError, 1%nat)
          | c3 :: _ =>
            let s3 := byteval c3 in
            if negb (cont s3) then (RuneError, 1%nat)
            else
              (Z.lor (Z.lor (Z.lor (Z.shiftl (Z.land s0 7) 18)
                                   (Z.shiftl (Z.land s1 63) 12))
                            (Z.shiftl (Z.land s2 63) 6))
                     (Z.land s3 63), 4%nat)
          end
        end
      end
    end
  end.

Definition RuneStart (b : Z) : bool := negb (Z.land b 192 =? 128).

(** The backward search of [DecodeLastRuneInString]:
    [for start--; start >= lim; start-- { if RuneStart(s[start]) break }],
    entered with [start] already decremented; [n] bounds the iterations
    (at most [UTFMax - 1] positions lie between [lim] and the end). *)
Fixpoint backToStart (n : nat) (s : gostring) (start lim : Z) : Z :=
  match n with
  | O => start
  | S n' =>
    if start <? lim then start
    else if RuneStart (byteval (nth (Z.to_nat start) s zero)) then start
    else backToStart n' s (start - 1) lim
  end.

Definition DecodeLastRuneInString (s : gostring) : Z * nat :=
  let e := len s in
  if e =? 0 then (RuneError, 0%nat)
  else
    let r := byteval (nth (Z.to_nat (e - 1)) s zero) in
    if r <? RuneSelf then (r, 1%nat)
    else
      let lim := Z.max 0 (e - UTFMax) in
      let start := Z.max 0 (backToStart 4 s (e - 2) lim) in
      let '(r, size) := DecodeRuneInString (skipn (Z.to_nat start) s) in
      if start + Z.of_nat size =? e then (r, size) else (RuneError, 1%nat).

End utf8.

(** ** unicode *)

Module unicode.

(** [IsSpace]: the Latin-1 spaces and the [White_Space] property above
    Latin-1. *)
Definition IsSpace (r : Z) : bool :=
  if r <=? 255 then
    ((9 <=? r) && (r <=? 13)) || (r =? 32) || (r =? 133) || (r =? 160)
  else
    (r =? 5760) || ((8192 <=? r) && (r <=? 8202)) || (r =? 8232)
    || (r =? 8233) || (r =? 8239) || (r =? 8287) || (r =? 12288).

End unicode.

(** ** Slices

    A Go slice is a window on a backing array: [arr] holds the array from
    the first element of the window to its end, so that the capacity is the
    length of [arr], and [slen] is the length of the window.  Indexing is
    checked against the length, re-slicing against the capacity. *)

Record slice (A : Type) : Type := mkSlice { arr : list A; slen : nat }.
Arguments mkSlice {A} _ _.
Arguments arr {A} _.
Arguments slen {A} _.

Definition cap {A : Type} (s : slice A) : nat := List.length (arr s).

(** The elements of the window. *)
Definition elems {A : Type} (s : slice A) : list A := firstn (slen s) (arr s).

(** [s[i]]: [None] is the run-time panic "index out of range". *)
Definition index {A : Type} (s : slice A) (i : nat) : option A :=
  if (i <? slen s)%nat then nth_error (arr s) i else None.

(** [s[lo:hi]]: [None] is the run-time panic "slice bounds out of range". *)
Definition reslice {A : Type} (s : slice A) (lo hi : nat) : option (slice A) :=
  if ((lo <=? hi) && (hi <=? cap s))%nat
  then Some (mkSlice (skipn lo (arr s)) (hi - lo))
  else None.

(** ** strings *)

Module strings.

Fixpoint HasPrefix (s prefix : gostring) : bool :=
  match prefix, s with
  | [], _ => true
  | _ :: _, [] => false
  | p :: prefix', c :: s' => Ascii.eqb c p && HasPrefix s' prefix'
  end.

(** [indexFunc]: the byte index of the first rune [r] of the string with
    [f r = truth], or -1.  [rest] is what [range] has still to visit and
    [i] its offset; each round consumes at least one byte, so the fuel
    given by [indexFunc] is never used up before [rest] is. *)
Fixpoint indexFunc_loop (fuel : nat) (f : Z -> bool) (truth : bool)
         (rest : gostring) (i : Z) : Z :=
  match fuel with
  | O => -1
  | S fuel' =>
    match rest with
    | [] => -1
    | _ :: _ =>
      let '(r, size) := utf8.DecodeRuneInString rest in
      if Bool.eqb (f r) truth then i
      else indexFunc_loop fuel' f truth (skipn size rest) (i + Z.of_nat size)
    end
  end.

Definition indexFunc (s : gostring) (f : Z -> bool) (truth : bool) : Z :=
  indexFunc_loop (List.length s) f truth s 0.

(** [lastIndexFunc]: [pre] is [s[0:i]]. *)
Fixpoint lastIndexFunc_loop (fuel : nat) (f : Z -> bool) (truth : bool)
         (pre : gostring) : Z :=
  match fuel with
  | O => -1
  | S fuel' =>
    if len pre <=? 0 then -1
    else
      let '(r, size) := utf8.DecodeLastRuneInString pre in
      let i := len pre - Z.of_nat size in
      if Bool.eqb (f r) truth then i
      else lastIndexFunc_loop fuel' f truth (firstn (Z.to_nat i) pre)
  end.

Definition lastIndexFunc (s : gostring) (f : Z -> bool) (truth : bool) : Z :=
  lastIndexFunc_loop (List.length s) f truth s.

Definition TrimLeftFunc (s : gostring) (f : Z -> bool) : gostring :=
  let i := indexFunc s f false in
  if i =? -1 then [] else skipn (Z.to_nat i) s.

Definition TrimRightFunc (s : gostring) (f : Z -> bool) : gostring :=
  let i := lastIndexFunc s f false in
  let i :=
    if (0 <=? i) && (utf8.RuneSelf <=? byteval (nth (Z.to_nat i) s zero))
    then i + Z.of_nat (snd (utf8.DecodeRuneInString (skipn (Z.to_nat i) s)))
    else i + 1 in
  firstn (Z.to_nat i) s.

Definition TrimFunc (s : gostring) (f : Z -> bool) : gostring :=
  TrimRightFunc (TrimLeftFunc s f) f.

(** The [asciiSpace] table: tab, newline, vertical tab, form feed,
    carriage return, space. *)
Definition asciiSpace (c : Z) : bool :=
  ((9 <=? c) && (c <=? 13)) || (c =? 32).

(** Second loop of [TrimSpace], run from the end of [s[start:]]; [r] is
    that string reversed. *)
Fixpoint TrimSpace_stop (r : gostring) : gostring :=
  match r with
  | [] => []
  | c :: t =>
    if utf8.RuneSelf <=? byteval c then TrimRightFunc (rev r) unicode.IsSpace
    else if asciiSpace (byteval c) then TrimSpace_stop t
    else rev r
  end.

(** [TrimSpace]: the first loop skips ASCII spaces from the front and
    falls back on [TrimFunc] at the first byte that is not ASCII. *)
Fixpoint TrimSpace (s : gostring) : gostring :=
  match s with
  | [] => TrimSpace_stop []
  | c :: t =>
    if utf8.RuneSelf <=? byteval c then TrimFunc s unicode.IsSpace
    else if asciiSpace (byteval c) then TrimSpace t
    else TrimSpace_stop (rev s)
  end.

(** The generic replacer built by [NewReplacer] for pairs whose old
    strings are not all single bytes.  At each position, from left to
    right, the first pair in argument order whose old string is a prefix
    of the rest is replaced and skipped; matches do not overlap.  The old
    strings are not empty here. *)
Fixpoint lookup (oldnew : list (gostring * gostring)) (s : gostring)
  : option (gostring * nat) :=
  match oldnew with
  | [] => None
  | (old, new) :: more =>
    if HasPrefix s old then Some (new, List.length old) else lookup more s
  end.

Fixpoint Replace_from (oldnew : list (gostring * gostring)) (skip : nat)
         (s : gostring) : gostring :=
  match s with
  | [] => []
  | c :: t =>
    match skip with
    | S k => Replace_from oldnew k t
    | O =>
      match lookup oldnew s with
      | Some (val, keylen) => val ++ Replace_from oldnew (keylen - 1) t
      | None => c :: Replace_from oldnew 0 t
      end
    end
  end.

Definition Replace (oldnew : list (gostring * gostring)) (s : gostring)
  : gostring := Replace_from oldnew 0 s.

(** [Index] and [Count] for a separator of one byte, the only kind the
    program uses. *)
Fixpoint IndexByte (s : gostring) (c : ascii) : Z :=
  match s with
  | [] => -1
  | x :: t =>
    if Ascii.eqb x c then 0
    else let m := IndexByte t c in if m <? 0 then -1 else m + 1
  end.

Fixpoint Count (s : gostring) (c : ascii) : Z :=
  match s with
  | [] => 0
  | x :: t => (if Ascii.eqb x c then 1 else 0) + Count t c
  end.

(** The loop of [genSplit]: [k] is [n - i], the pieces still allowed
    before the last one. *)
Fixpoint genSplit_loop (k : nat) (s : gostring) (sep : ascii)
  : list gostring :=
  match k with
  | O => [s]
  | S k' =>
    let m := IndexByte s sep in
    if m <? 0 then [s]
    else firstn (Z.to_nat m) s
         :: genSplit_loop k' (skipn (Z.to_nat m + 1) s) sep
  end.

(** [genSplit(s, sep, 0, n)] for a one-byte [sep].  The array is made
    with [n] elements (after [n] was capped by [len(s)+1]) and the result
    is its first [i+1] elements: the capacity stays [n]. *)
Definition genSplit (s : gostring) (sep : ascii) (n : Z) : slice gostring :=
  if n =? 0 then mkSlice [] 0
  else
    let n := if n <? 0 then Count s sep + 1 else n in
    let n := if len s + 1 <? n then len s + 1 else n in
    let pieces := genSplit_loop (Z.to_nat (n - 1)) s sep in
    mkSlice (pieces ++ repeat [] (Z.to_nat n - List.length pieces))
            (List.length pieces).

Definition SplitN (s : gostring) (sep : ascii) (n : Z) : slice gostring :=
  genSplit s sep n.

Definition Split (s : gostring) (sep : ascii) : slice gostring :=
  genSplit s sep (-1).

Fixpoint Join (elems : list gostring) (sep : gostring) : gostring :=
  match elems with
  | [] => []
  | [a] => a
  | a :: more => a ++ sep ++ Join more sep
  end.

End strings.

(** ** crypto/sha1 and encoding/hex *)

Module sha1.

Definition w32 (x : Z) : Z := x mod 4294967296.

Definition rotl (x n : Z) : Z :=
  w32 (Z.lor (Z.shiftl x n) (Z.shiftr x (32 - n))).

Definition not32 (x : Z) : Z := 4294967295 - x.

Definition be32 (b0 b1 b2 b3 : Z) : Z :=
  Z.lor (Z.lor (Z.shiftl b0 24) (Z.shiftl b1 16)) (Z.lor (Z.shiftl b2 8) b3).

(** Big-endian bytes of [x], [n] of them. *)
Fixpoint be_bytes (n : nat) (x : Z) : list Z :=
  match n with
  | O => []
  | S n' => be_bytes n' (Z.shiftr x 8) ++ [Z.land x 255]
  end.

(** The padding written by [checkSum]: 0x80, zeros up to 56 modulo 64,
    and the length in bits as 8 bytes. *)
Definition pad (msg : list Z) : list Z :=
  let l := len msg in
  let k := if l mod 64 <? 56 then 56 - l mod 64 else 64 + 56 - l mod 64 in
  msg ++ 128 :: repeat 0 (Z.to_nat (k - 1)) ++ be_bytes 8 (Z.shiftl l 3).

Fixpoint words (n : nat) (p : list Z) : list Z :=
  match n, p with
  | S n', b0 :: b1 :: b2 :: b3 :: p' => be32 b0 b1 b2 b3 :: words n' p'
  | _, _ => []
  end.

(** Message schedule, most recent word first. *)
Fixpoint extend (k : nat) (w : list Z) : list Z :=
  match k with
  | O => w
  | S k' =>
    let tmp := Z.lxor (Z.lxor (nth 2 w 0) (nth 7 w 0))
                      (Z.lxor (nth 13 w 0) (nth 15 w 0)) in
    extend k' (rotl tmp 1 :: w)
  end.

Definition state : Type := Z * Z * Z * Z * Z.

Definition round (i : Z) (wi : Z) (st : state) : state :=
  let '(a, b, c, d, e) := st in
  let '(f, k) :=
    if i <? 20 then (Z.lor (Z.land b c) (Z.land (not32 b) d), 1518500249)
    else if i <? 40 then (Z.lxor (Z.lxor b c) d, 1859775393)
    else if i <? 60 then
      (Z.lor (Z.land (Z.lor b c) d) (Z.land b c), 2400959708)
    else (Z.lxor (Z.lxor b c) d, 3395469782) in
  let t := w32 (rotl a 5 + f + e + wi + k) in
  (t, a, rotl b 30, c, d).

Fixpoint rounds (i : Z) (w : list Z) (st : state) : state :=
  match w with
  | [] => st
  | wi :: w' => rounds (i + 1) w' (round i wi st)
  end.

Definition block (h : state) (p : list Z) : state :=
  let w := rev (extend 64 (rev (words 16 p))) in
  let '(h0, h1, h2, h3, h4) := h in
  let '(a, b, c, d, e) := rounds 0 w h in
  (w32 (h0 + a), w32 (h1 + b), w32 (h2 + c), w32 (h3 + d), w32 (h4 + e)).

Fixpoint blocks (n : nat) (h : state) (p : list Z) : state :=
  match n with
  | O => h
  | S n' => blocks n' (block h (firstn 64 p)) (skipn 64 p)
  end.

Definition init : state :=
  (1732584193, 4023233417, 2562383102, 271733878, 3285377520).

(** [h := sha1.New(); h.Write(data); h.Sum(nil)]: the 20 bytes of the
    digest. *)
Definition Sum (data : gostring) : gostring :=
  let p := pad (map byteval data) in
  let '(h0, h1, h2, h3, h4) := blocks (List.length p / 64) init p in
  map (fun b => ascii_of_N (Z.to_N b))
      (be_bytes 4 h0 ++ be_bytes 4 h1 ++ be_bytes 4 h2 ++ be_bytes 4 h3
       ++ be_bytes 4 h4).

End sha1.

Module hex.

Definition hextable : gostring := str "0123456789abcdef".

Fixpoint EncodeToString (src : gostring) : gostring :=
  match src with
  | [] => []
  | c :: t =>
    let v := byteval c in
    nth (Z.to_nat (Z.shiftr v 4)) hextable zero
    :: nth (Z.to_nat (Z.land v 15)) hextable zero
    :: EncodeToString t
  end.

End hex.

(** ** Logging, errors and the control monad *)

(** A Go [error] is kept as its message. *)
Definition Err : Type := gostring.

Inductive Level : Type := FatalLevel | ErrorLevel | WarnLevel | InfoLevel.

(** The fields of a job's [contextLogger]. *)
Record Fields : Type := mkFields {
  f_id : gostring;
  f_schedule : gostring;
  f_command : gostring
}.

(** One logrus record: level, the context fields when it is written
    through a [contextLogger], the extra field set by [WithField] (name and
    value), and the message. *)
Record LogRecord : Type := mkLog {
  l_level : Level;
  l_context : option Fields;
  l_field : option (gostring * gostring);
  l_msg : gostring
}.

(** [exec.Cmd] as [exec.Command] builds it: the program and its argument
    vector ([Args[0]] is the program). *)
Record Cmd : Type := mkCmd { Path : gostring; CmdArgs : list gostring }.

Definition exec_Command (name : gostring) (arg : list gostring) : Cmd :=
  mkCmd name (name :: arg).

(** What a computation does to the outside, in order. *)
Inductive Effect : Type :=
| ELog (l : LogRecord)
| EGoFlushPeriodically            (* go r.flushBufferPeriodically() *)
| EStart (c : Cmd)                (* cmd.Start() *)
| EWait (c : Cmd).                (* cmd.Wait() *)

Inductive PanicKind : Type := IndexOutOfRange | SliceBoundsOutOfRange.

(** Result of a computation on a state [S]: it returns, or the process
    dies with a run-time panic or through [log.Fatal] ([os.Exit(1)]). *)
Inductive Res (S A : Type) : Type :=
| Ret (a : A) (s : S)
| Panic (k : PanicKind) (s : S)
| Exit (s : S).
Arguments Ret {S A} _ _.
Arguments Panic {S A} _ _.
Arguments Exit {S A} _.

Definition M (S A : Type) : Type := S -> Res S A.

Definition ret {S A : Type} (a : A) : M S A := fun s => Ret a s.

Definition bind {S A B : Type} (m : M S A) (k : A -> M S B) : M S B :=
  fun s => match m s with
           | Ret a s' => k a s'
           | Panic p s' => Panic p s'
           | Exit s' => Exit s'
           end.

Definition gets {S A : Type} (f : S -> A) : M S A := fun s => Ret (f s) s.
Definition modify {S : Type} (f : S -> S) : M S unit := fun s => Ret tt (f s).
Definition panic {S A : Type} (k : PanicKind) : M S A := fun s => Panic k s.
Definition exit {S A : Type} : M S A := fun s => Exit s.

(** A checked access: [None] is the run-time panic [k]. *)
Definition checked {S A : Type} (k : PanicKind) (o : option A) : M S A :=
  match o with Some a => ret a | None => panic k end.

Declare Scope go_scope.
Delimit Scope go_scope with go.
Notation "x <- m ;; k" := (bind m (fun x => k))
  (at level 61, m at next level, right associativity) : go_scope.
Notation "m ;;; k" := (bind m (fun _ => k))
  (at level 61, right associativity) : go_scope.
Local Open Scope go_scope.

(** One step of a computation: the first [bind] is opened. *)
Ltac mstep := unfold bind at 1; cbv beta iota zeta.

(** Goals on concrete fields and separators of a crontab line. *)
Ltac field_tac := split; [discriminate | vm_compute; repeat constructor].
Ltac separator_tac :=
  first [left; reflexivity | right; left; reflexivity
         | right; right; reflexivity].

Fixpoint forEach {S A : Type} (l : list A) (body : A -> M S unit) : M S unit :=
  match l with
  | [] => ret tt
  | a :: l' => body a ;;; forEach l' body
  end.

(** ** Constants *)

Definition logBufferSize : Z := 1024 * 512.

(** ** Runnable *)

Record Runnable : Type := mkRunnable {
  ID : gostring;
  Command : gostring;
  Args : gostring;
  Schedule : gostring;
  buffer : list ascii;
  bufferPos : Z;
  isRunning : bool;
  contextLogger : Fields
}.

Definition set_bufferPos (p : Z) (r : Runnable) : Runnable :=
  mkRunnable (ID r) (Command r) (Args r) (Schedule r) (buffer r) p
             (isRunning r) (contextLogger r).

Definition set_buffer (b : list ascii) (r : Runnable) : Runnable :=
  mkRunnable (ID r) (Command r) (Args r) (Schedule r) b (bufferPos r)
             (isRunning r) (contextLogger r).

Definition set_isRunning (v : bool) (r : Runnable) : Runnable :=
  mkRunnable (ID r) (Command r) (Args r) (Schedule r) (buffer r)
             (bufferPos r) v (contextLogger r).

Definition createRunnable (command args schedule : gostring) : Runnable :=
  let hash := sha1.Sum command in
  let id := hex.EncodeToString hash in
  mkRunnable id command args schedule
             (repeat zero (Z.to_nat logBufferSize)) 0 false
             (mkFields id schedule command).

(** The state of one job while it executes: the [Runnable] object and
    the effects produced so far. *)
Record Proc : Type := mkProc { self : Runnable; trace : list Effect }.

Definition emit (e : Effect) : M Proc unit :=
  modify (fun p => mkProc (self p) (trace p ++ [e])).

Definition update (f : Runnable -> Runnable) : M Proc unit :=
  modify (fun p => mkProc (f (self p)) (trace p)).

(** [r.contextLogger.<Level>(msg)], possibly after [WithField]. *)
Definition ctxLog (lvl : Level) (field : option (gostring * gostring))
           (msg : gostring) : M Proc unit :=
  r <- gets self ;;
  emit (ELog (mkLog lvl (Some (contextLogger r)) field msg)).

(** [b[lo:hi]] on a byte slice that is its whole backing array. *)
Definition bytes_sub (b : list ascii) (lo hi : Z) : option (list ascii) :=
  if (0 <=? lo) && (lo <=? hi) && (hi <=? len b)
  then Some (firstn (Z.to_nat (hi - lo)) (skipn (Z.to_nat lo) b))
  else None.

(** [copy(b[pos:], src)]: as many bytes as fit are copied. *)
Definition copy_at (b : list ascii) (pos : Z) (src : list ascii)
  : option (list ascii) :=
  if (0 <=? pos) && (pos <=? len b)
  then
    let n := Nat.min (List.length b - Z.to_nat pos) (List.length src) in
    Some (firstn (Z.to_nat pos) b ++ firstn n src
          ++ skipn (Z.to_nat pos + n) b)
  else None.

Definition flush : M Proc unit :=
  r <- gets self ;;
  if bufferPos r =? 0 then ret tt
  else
    region <- checked SliceBoundsOutOfRange
                      (bytes_sub (buffer r) 0 (bufferPos r)) ;;
    let trimmedLines := strings.TrimSpace region in
    update (set_bufferPos 0) ;;;
    ctxLog InfoLevel (Some (str "output", trimmedLines))
           (str "command std output").

Definition newline : ascii := ascii_of_nat 10.

(** Body of the loop over the standard output of the command, for the
    line [text] that [scanner.Text()] returns. *)
Definition Run_stdout_line (text : gostring) : M Proc unit :=
  let message := text ++ [newline] in
  let length := len message in
  if logBufferSize <? length then
    ctxLog InfoLevel None (str "message received was too large")
  else
    r <- gets self ;;
    (if logBufferSize <? length + bufferPos r then flush else ret tt) ;;;
    r <- gets self ;;
    b <- checked SliceBoundsOutOfRange
                 (copy_at (buffer r) (bufferPos r) message) ;;
    update (set_buffer b) ;;;
    update (fun r => set_bufferPos (bufferPos r + length) r).

(** Body of the loop over the standard error of the command. *)
Definition Run_stderr_line (text : gostring) : M Proc unit :=
  ctxLog WarnLevel (Some (str "output", text)) (str "command std error").

(** What arrives while a pipe is read: a line, or a firing of the
    periodic flusher ([go r.flush()] in [flushBufferPeriodically]), which
    the model lets run between two rounds of the reading loop. *)
Inductive PipeEvent : Type :=
| Line (text : gostring)
| Tick.

(** ** bufio.Scanner

    [bufio.NewScanner] with its default buffer and [ScanLines]: a line is
    returned, without its end-of-line marker, as long as it is shorter
    than [MaxScanTokenSize]; at the first line that is not, [Scan] returns
    false for good and [Err] is [ErrTooLong]. *)

Module bufio.

Definition MaxScanTokenSize : Z := 64 * 1024.

Definition ErrTooLong : Err := str "bufio.Scanner: token too long".

(** [dropCR]: a carriage return at the end of the data is dropped. *)
Definition dropCR (data : gostring) : gostring :=
  match rev data with
  | c :: r => if Ascii.eqb c (ascii_of_nat 13) then rev r else data
  | [] => data
  end.

(** The lines [Scan] returns, and the error [Err] reports at the end, for
    the lines written to the pipe (each without its newline) and the error
    the last read ends with.  The firings of the flusher stay where they
    are among the lines. *)
Fixpoint Scan (w : list PipeEvent) (readErr : option Err)
  : list PipeEvent * option Err :=
  match w with
  | [] => ([], readErr)
  | Line data :: more =>
    if MaxScanTokenSize <=? len data then ([], Some ErrTooLong)
    else let '(l, e) := Scan more readErr in (Line (dropCR data) :: l, e)
  | Tick :: more =>
    let '(l, e) := Scan more readErr in (Tick :: l, e)
  end.

End bufio.

(** A pipe of the command: the lines the command writes until it closes
    the pipe, each without its newline, with the firings of the flusher
    that fall between them, and the error, if any, the last read ends
    with.  The output is that of a command whose pipe is read to its end:
    a command that never closes it keeps [Run] reading for ever, and
    nothing is said here about such a run. *)
Record Pipe : Type := mkPipe {
  written : list PipeEvent;
  readErr : option Err
}.

(** What the scanner on the pipe returns: the events of the reading
    loop, and [scanner.Err()] once [Scan] has returned false. *)
Definition events (p : Pipe) : list PipeEvent :=
  fst (bufio.Scan (written p) (readErr p)).

Definition scanErr (p : Pipe) : option Err :=
  snd (bufio.Scan (written p) (readErr p)).

(** The outside world of one firing of a job, for a command that closes
    its pipes and ends: what each call made by [Run] answers. *)
Record Firing : Type := mkFiring {
  lookPathErr : gostring -> option Err;   (* exec.LookPath *)
  stdoutPipeErr : option Err;             (* cmd.StdoutPipe() *)
  stderrPipeErr : option Err;             (* cmd.StderrPipe() *)
  startErr : option Err;                  (* cmd.Start() *)
  stdout : Pipe;
  stderr : Pipe;
  waitErr : option Err                    (* cmd.Wait() *)
}.

Definition logFatal (err : Err) : M Proc unit :=
  emit (ELog (mkLog FatalLevel None None err)) ;;; exit.

Definition logErr (e : option Err) : M Proc unit :=
  match e with
  | Some err => ctxLog ErrorLevel None err
  | None => ret tt
  end.

Definition onEvent (line : gostring -> M Proc unit) (e : PipeEvent)
  : M Proc unit :=
  match e with
  | Line text => line text
  | Tick => flush
  end.

Section Program.

(** The flags and the environment of the process, fixed at start-up. *)
Variable executer : gostring.             (* the -exec flag *)
Variable SHELL : gostring.                (* os.Getenv("SHELL") *)

(** [cron.Parse] of robfig/cron, kept by its outcome: the error for a
    schedule it refuses. *)
Variable cron_Parse : gostring -> option Err.

Definition Run_command (r : Runnable) : Cmd :=
  if gostring_eqb executer (str "go") then
    let cmdArgs := strings.Split (Args r) " "%char in
    exec_Command (Command r) (elems cmdArgs)
  else
    let cmdString := Command r ++ str " " ++ Args r in
    exec_Command SHELL [str "-c"; cmdString].

Definition Run (w : Firing) : M Proc unit :=
  r <- gets self ;;
  match lookPathErr w (Command r) with
  | Some err => ctxLog ErrorLevel None err
  | None =>
    let cmd := Run_command r in
    match stdoutPipeErr w with
    | Some err => logFatal err
    | None =>
      match stderrPipeErr w with
      | Some err => logFatal err
      | None =>
        update (set_isRunning true) ;;;
        emit EGoFlushPeriodically ;;;
        emit (EStart cmd) ;;;
        logErr (startErr w) ;;;
        forEach (events (stdout w)) (onEvent Run_stdout_line) ;;;
        logErr (scanErr (stdout w)) ;;;
        forEach (events (stderr w)) (onEvent Run_stderr_line) ;;;
        logErr (scanErr (stderr w)) ;;;
        emit (EWait cmd) ;;;
        logErr (waitErr w) ;;;
        update (set_isRunning false)
      end
    end
  end.

(** ** The scheduler (robfig/cron) *)

Record CronEntry : Type := mkEntry { Spec : gostring; Job : Runnable }.

Record Cron : Type := mkCron { entries : list CronEntry; running : bool }.

Definition cron_New : Cron := mkCron [] false.
Definition cron_Stop (c : Cron) : Cron := mkCron (entries c) false.

(** [Start] sets the flag and launches the loop of the scheduler; it does
    not touch the entries itself. *)
Definition cron_Start (c : Cron) : Cron := mkCron (entries c) true.

(** The loop of a running scheduler ([run], launched by [Start]) sorts
    the entries by next activation time before each wait.  The order it
    leaves depends on the clock and on the schedules: the loop is kept as
    a step that reorders the entries of a running scheduler in some way.
    The order of the entries of a scheduler that was started is therefore
    that of the registrations only until the loop has run. *)
Inductive cron_run : Cron -> Cron -> Prop :=
| cron_run_sort : forall c es,
    running c = true ->
    Permutation es (entries c) ->
    cron_run c (mkCron es true).

(** The scheduler some rounds of its loop later. *)
Inductive cron_runs : Cron -> Cron -> Prop :=
| cron_runs_refl : forall c, cron_runs c c
| cron_runs_step : forall c c' c'',
    cron_run c c' -> cron_runs c' c'' -> cron_runs c c''.

(** [AddJob]: the schedule is parsed and, unless that fails, the entry
    is appended. *)
Definition cron_AddJob (spec : gostring) (cmd : Runnable) (c : Cron)
  : Cron * option Err :=
  match cron_Parse spec with
  | Some err => (c, Some err)
  | None => (mkCron (entries c ++ [mkEntry spec cmd]) (running c), None)
  end.

(** The process: the global [cronScheduler], the instances it pointed to
    before (stopped, no longer reachable from the global), and the effects
    of the process so far. *)
Record World : Type := mkWorld {
  cronScheduler : Cron;
  retired : list Cron;
  output : list Effect
}.

Definition wlog (l : LogRecord) : M World unit :=
  modify (fun w => mkWorld (cronScheduler w) (retired w)
                           (output w ++ [ELog l])).

Definition jobLog (r : Runnable) (lvl : Level) (msg : gostring)
  : M World unit :=
  wlog (mkLog lvl (Some (contextLogger r)) None msg).

Definition logCreation (r : Runnable) : M World unit :=
  jobLog r InfoLevel (str "job created").

Definition AddJob (spec : gostring) (cmd : Runnable) : M World (option Err) :=
  fun w =>
    let '(c, err) := cron_AddJob spec cmd (cronScheduler w) in
    Ret err (mkWorld c (retired w) (output w)).

Definition tab : ascii := ascii_of_nat 9.

Definition replacer : list (gostring * gostring) :=
  [(str "  ", str " "); ([tab], str " ")].

Definition parseCrontabLine (line : gostring) : M World unit :=
  let line := strings.TrimSpace line in
  if (len line <=? 0) || strings.HasPrefix line (str "#") then ret tt
  else
    let line := strings.Replace replacer line in
    let substrings := strings.SplitN line " "%char 7 in
    if (slen substrings <? 5)%nat then ret tt
    else
      args <- (if (6 <=? slen substrings)%nat then
                 tail <- checked SliceBoundsOutOfRange
                                 (reslice substrings 6 7) ;;
                 ret (strings.Join (elems tail) (str " "))
               else ret []) ;;
      five <- checked SliceBoundsOutOfRange (reslice substrings 0 5) ;;
      let schedule := str "0 " ++ strings.Join (elems five) (str " ") in
      command <- checked IndexOutOfRange (index substrings 5) ;;
      let r := createRunnable command args schedule in
      err <- AddJob schedule r ;;
      match err with
      | Some e => jobLog r ErrorLevel (str "unable to parse schedule" ++ e)
      | None => logCreation r
      end.

(** What opening the crontab file and scanning it give: the error of
    [os.Open], or the lines and the final [scanner.Err()]. *)
Inductive CrontabFile : Type :=
| OpenError (err : Err)
| Opened (lines : list gostring) (scanErr : option Err).

Definition initCron (file : CrontabFile) : M World unit :=
  modify (fun w => mkWorld (cron_Stop (cronScheduler w)) (retired w)
                           (output w)) ;;;
  modify (fun w => mkWorld cron_New (cronScheduler w :: retired w)
                           (output w)) ;;;
  match file with
  | OpenError err =>
    wlog (mkLog FatalLevel None None err) ;;; exit
  | Opened lines scanErr =>
    forEach lines parseCrontabLine ;;;
    match scanErr with
    | Some err =>
      wlog (mkLog ErrorLevel None None (str "failed reading crontab" ++ err))
    | None =>
      modify (fun w => mkWorld (cron_Start (cronScheduler w)) (retired w)
                               (output w))
    end
  end.

(** [main] before it calls [initCron]: a first scheduler. *)
Definition World0 : World := mkWorld cron_New [] [].

Fixpoint set_nth {A : Type} (i : nat) (a : A) (l : list A) : list A :=
  match l, i with
  | [], _ => []
  | _ :: t, O => a :: t
  | x :: t, S i' => x :: set_nth i' a t
  end.

(** The trigger of the scheduler: entry [i] is due and its job's [Run]
    is called on the [Runnable] object the entry points to, in the
    outside world [f].  The object stays where it is, in the entry. *)
Definition fire (i : nat) (f : Firing) : M World unit :=
  fun w =>
    let c := cronScheduler w in
    match nth_error (entries c) i with
    | None => Ret tt w
    | Some e =>
      let back (p : Proc) :=
        mkWorld (mkCron (set_nth i (mkEntry (Spec e) (self p)) (entries c))
                        (running c))
                (retired w) (trace p) in
      match Run f (mkProc (Job e) (output w)) with
      | Ret _ p => Ret tt (back p)
      | Panic k p => Panic k (back p)
      | Exit p => Exit (back p)
      end
    end.

End Program.

Arguments World0 : simpl never.

(** ** The watcher (fsnotify) *)

Module fsnotify.

(** The bits of [Op]. *)
Definition Create : Z := 1.
Definition Write : Z := 2.
Definition Remove : Z := 4.
Definition Rename : Z := 8.
Definition Chmod : Z := 16.

End fsnotify.

(** What the watcher delivers: an event on the crontab, with the file as
    [initCron] finds it should it be read then, or an error. *)
Inductive WatcherMsg : Type :=
| FsEvent (Op : Z) (Name : gostring) (file : CrontabFile)
| FsError (err : Err).

Section Watcher.

Variable cron_Parse : gostring -> option Err.

(** One round of the [select] loop of [watchCrontab]. *)
Definition watch_round (m : WatcherMsg) : M World unit :=
  match m with
  | FsEvent Op Name file =>
    if Z.land Op fsnotify.Write =? fsnotify.Write then
      wlog (mkLog InfoLevel None (Some (str "file", Name))
                  (str "crontab updated")) ;;;
      initCron cron_Parse file
    else ret tt
  | FsError err =>
    wlog (mkLog InfoLevel None None (str "error: " ++ err))
  end.

(** [watchCrontab], for the messages that arrive: [newErr] is the error
    of [fsnotify.NewWatcher], [addErr] that of [watcher.Add]. *)
Definition watchCrontab (newErr addErr : option Err)
           (msgs : list WatcherMsg) : M World unit :=
  match newErr with
  | Some err => wlog (mkLog FatalLevel None None err) ;;; exit
  | None =>
    match addErr with
    | Some err => wlog (mkLog FatalLevel None None err) ;;; exit
    | None => forEach msgs watch_round
    end
  end.

End Watcher.

(** A message that does not make the watcher reload: an error, or an
    event without the write bit. *)
Definition no_write (m : WatcherMsg) : Prop :=
  match m with
  | FsEvent Op _ _ => Z.land Op fsnotify.Write <> fsnotify.Write
  | FsError _ => True
  end.

(** ** Notions used by the properties *)

(** The state a computation ends in, however it ends. *)
Definition state_of {S A : Type} (r : Res S A) : S :=
  match r with
  | Ret _ s => s
  | Panic _ s => s
  | Exit s => s
  end.

(** The tokens of a crontab line: the line trimmed, normalized by the
    replacer and split in at most seven. *)
Definition normalized (line : gostring) : gostring :=
  strings.Replace replacer (strings.TrimSpace line).

Definition tokens (line : gostring) : list gostring :=
  elems (strings.SplitN (normalized line) " "%char 7).

(** The buffer of a job is its array of [logBufferSize] bytes and the
    cursor lies within it. *)
Definition buffer_ok (r : Runnable) : Prop :=
  len (buffer r) = logBufferSize /\ 0 <= bufferPos r <= logBufferSize.

(** The record [flush] writes for the content [out]. *)
Definition flushRecord (r : Runnable) (out : gostring) : Effect :=
  ELog (mkLog InfoLevel (Some (contextLogger r)) (Some (str "output", out))
              (str "command std output")).

(** The contents of the flush records of a trace, in order. *)
Definition flushed (e : Effect) : list gostring :=
  match e with
  | ELog (mkLog InfoLevel _ (Some (_, out)) _) => [out]
  | _ => []
  end.

Definition flushOutputs (tr : list Effect) : list gostring :=
  flat_map flushed tr.

(** The commands started in a trace, in order. *)
Definition startedCmd (e : Effect) : list Cmd :=
  match e with
  | EStart c => [c]
  | _ => []
  end.

Definition started (tr : list Effect) : list Cmd := flat_map startedCmd tr.

(** Splitting on a separator the plain way: the pieces between the
    separators, all of them.  This is what "split on spaces" says; it is
    compared with [strings.Split] below. *)
Fixpoint splitOn (sep : ascii) (s : gostring) : list gostring :=
  match s with
  | [] => [[]]
  | c :: t =>
    if Ascii.eqb c sep then [] :: splitOn sep t
    else match splitOn sep t with
         | h :: more => (c :: h) :: more
         | [] => [[c]]
         end
  end.

(** The states of a job's buffer the program can reach: the job is
    created, and then lines are appended by the reading loop and flushes
    happen, in any order. *)
Inductive reachable : Runnable -> Prop :=
| reach_create : forall command args schedule,
    reachable (createRunnable command args schedule)
| reach_line : forall r tr text p',
    reachable r ->
    Run_stdout_line text (mkProc r tr) = Ret tt p' ->
    reachable (self p')
| reach_flush : forall r tr p',
    reachable r ->
    flush (mkProc r tr) = Ret tt p' ->
    reachable (self p').

(** Two computations that end the same way, in states related by [R]. *)
Definition res_rel {S A : Type} (R : S -> S -> Prop) (a b : Res S A) : Prop :=
  match a, b with
  | Ret x s, Ret y t => x = y /\ R s t
  | Panic k s, Panic k' t => k = k' /\ R s t
  | Exit s, Exit t => R s t
  | _, _ => False
  end.

(** [m] respects [R]: from related states it ends the same way in related
    states. *)
Definition respects {S A : Type} (R : S -> S -> Prop) (m : M S A) : Prop :=
  forall s t, R s t -> res_rel R (m s) (m t).

(** The record written for a message that is too large. *)
Definition tooLargeRecord (r : Runnable) : Effect :=
  ELog (mkLog InfoLevel (Some (contextLogger r)) None
              (str "message received was too large")).

(** The job once [message] is stored at the cursor. *)
Definition appended (message : gostring) (r : Runnable) : Runnable :=
  let pos := Z.to_nat (bufferPos r) in
  mkRunnable (ID r) (Command r) (Args r) (Schedule r)
             (firstn pos (buffer r) ++ message
              ++ skipn (pos + List.length message) (buffer r))
             (bufferPos r + len message) (isRunning r) (contextLogger r).

(** The content [flush] would emit: the bytes before the cursor. *)
Definition region (r : Runnable) : gostring :=
  firstn (Z.to_nat (bufferPos r)) (buffer r).

(** Two executions of a job with the same [Runnable] and the same flush
    records so far. *)
Definition same_flushes (p q : Proc) : Prop :=
  self p = self q /\ flushOutputs (trace p) = flushOutputs (trace q).

(** The record of an error logged through the job's logger. *)
Definition errorRecord (r : Runnable) (err : Err) : Effect :=
  ELog (mkLog ErrorLevel (Some (contextLogger r)) None err).

(** The execution once the error [e], if any, is logged. *)
Definition withErr (e : option Err) (q : Proc) : Proc :=
  match e with
  | Some err => mkProc (self q) (trace q ++ [errorRecord (self q) err])
  | None => q
  end.

(** What [Run] does once [cmd.Start()] has been called and its error, if
    any, logged: the two reading loops, the wait, and the flag cleared. *)
Definition Run_after_start (w : Firing) (cmd : Cmd) : M Proc unit :=
  forEach (events (stdout w)) (onEvent Run_stdout_line) ;;;
  logErr (scanErr (stdout w)) ;;;
  forEach (events (stderr w)) (onEvent Run_stderr_line) ;;;
  logErr (scanErr (stderr w)) ;;;
  emit (EWait cmd) ;;;
  logErr (waitErr w) ;;;
  update (set_isRunning false).

(** The execution at the moment the reading starts: flag set, flusher
    launched, process start attempted and its error, if any, logged. *)
Definition at_start (cmd : Cmd) (e : option Err) (p : Proc) : Proc :=
  withErr e (mkProc (set_isRunning true (self p))
                    (trace p ++ [EGoFlushPeriodically; EStart cmd])).

(** How [Run_after_start] ends from the execution [q2] the second loop
    leaves. *)
Definition at_end (w : Firing) (cmd : Cmd) (q2 : Proc) : Proc :=
  let q := withErr (scanErr (stderr w)) q2 in
  let q := withErr (waitErr w) (mkProc (self q) (trace q ++ [EWait cmd])) in
  mkProc (set_isRunning false (self q)) (trace q).

(** A string that does not start with an ASCII space (the bytes of
    [asciiSpace]: space and tab among them). *)
Definition clean_head (s : gostring) : Prop :=
  match s with
  | [] => True
  | c :: _ => strings.asciiSpace (byteval c) = false
  end.

(** [m] keeps [I]: from a state in [I] it ends, however it ends, in a
    state in [I]. *)
Definition preserves {S A : Type} (I : S -> Prop) (m : M S A) : Prop :=
  forall s, I s -> I (state_of (m s)).

(** The same scheduler, whatever else differs in the process. *)
Definition same_sched (w w' : World) : Prop :=
  cronScheduler w = cronScheduler w'.

(** The identity of a job is the hexadecimal SHA-1 of its command. *)
Definition identified (r : Runnable) : Prop :=
  ID r = hex.EncodeToString (sha1.Sum (Command r)).

Definition all_identified (w : World) : Prop :=
  Forall (fun e => identified (Job e)) (entries (cronScheduler w)).

(** The bytes a list of lines puts in the buffer: each line and its
    newline. *)
Definition messages (texts : list gostring) : gostring :=
  flat_map (fun t => t ++ [newline]) texts.

(** A string of ASCII white space only. *)
Definition blank (s : gostring) : Prop :=
  Forall (fun c => strings.asciiSpace (byteval c) = true) s.

(** [r] is the job [r0], possibly with other buffer content, cursor and
    flag: same identity, command, arguments, schedule and logger, and a
    buffer of the same size. *)
Definition same_job (r0 r : Runnable) : Prop :=
  ID r = ID r0 /\ Command r = Command r0 /\ Args r = Args r0
  /\ Schedule r = Schedule r0 /\ contextLogger r = contextLogger r0
  /\ List.length (buffer r) = List.length (buffer r0).

(** The record written for a line of standard error. *)
Definition warnRecord (r : Runnable) (text : gostring) : Effect :=
  ELog (mkLog WarnLevel (Some (contextLogger r)) (Some (str "output", text))
              (str "command std error")).

(** The outputs of the warnings of a trace, in order. *)
Definition warned (e : Effect) : list gostring :=
  match e with
  | ELog (mkLog WarnLevel _ (Some (_, out)) _) => [out]
  | _ => []
  end.

Definition warnings (tr : list Effect) : list gostring := flat_map warned tr.

(** The lines among the events of a pipe, in order. *)
Definition lineText (e : PipeEvent) : list gostring :=
  match e with
  | Line text => [text]
  | Tick => []
  end.

Definition lineTexts (evs : list PipeEvent) : list gostring :=
  flat_map lineText evs.

(** A lower-case hexadecimal digit. *)
Definition hexdigit (c : ascii) : Prop := In c hex.hextable.

(** ** The parser and the reload, said directly

    What a crontab line amounts to, written without slices: whether it is
    ignored, the job it describes, and what offering that job to the
    scheduler does.  The parser is compared with these below. *)

(** The line is empty or a comment once trimmed. *)
Definition ignored (line : gostring) : bool :=
  (len (strings.TrimSpace line) <=? 0)
  || strings.HasPrefix (strings.TrimSpace line) (str "#").

(** The line has the five schedule fields and nothing else. *)
Definition crashes (line : gostring) : bool :=
  negb (ignored line) && (List.length (tokens line) =? 5)%nat.

Definition schedule_of (t1 t2 t3 t4 t5 : gostring) : gostring :=
  str "0 " ++ t1 ++ str " " ++ t2 ++ str " " ++ t3 ++ str " " ++ t4
      ++ str " " ++ t5.

Definition job_of_tokens (toks : list gostring) : option Runnable :=
  match toks with
  | t1 :: t2 :: t3 :: t4 :: t5 :: t6 :: more =>
    Some (createRunnable t6 (match more with [] => [] | t7 :: _ => t7 end)
                         (schedule_of t1 t2 t3 t4 t5))
  | _ => None
  end.

Definition line_job (line : gostring) : option Runnable :=
  if ignored line then None else job_of_tokens (tokens line).

(** A job as the parser leaves it in the scheduler: registered under its
    own schedule, idle, with an empty buffer of full size. *)
Definition fresh_entry (e : CronEntry) : Prop :=
  Spec e = Schedule (Job e)
  /\ strings.HasPrefix (Spec e) (str "0 ") = true
  /\ identified (Job e)
  /\ contextLogger (Job e)
     = mkFields (ID (Job e)) (Schedule (Job e)) (Command (Job e))
  /\ bufferPos (Job e) = 0
  /\ isRunning (Job e) = false
  /\ buffer_ok (Job e).

Section Expected.

Variable cron_Parse : gostring -> option Err.

(** The process after the job [r] was offered to the scheduler: registered
    and announced, or refused and the refusal logged. *)
Definition offer (w : World) (r : Runnable) : World :=
  let c := cronScheduler w in
  match cron_Parse (Schedule r) with
  | Some e =>
    mkWorld c (retired w)
            (output w
             ++ [ELog (mkLog ErrorLevel (Some (contextLogger r)) None
                             (str "unable to parse schedule" ++ e))])
  | None =>
    mkWorld (mkCron (entries c ++ [mkEntry (Schedule r) r]) (running c))
            (retired w)
            (output w
             ++ [ELog (mkLog InfoLevel (Some (contextLogger r)) None
                             (str "job created"))])
  end.

(** The entries a line adds to the scheduler. *)
Definition line_entries (line : gostring) : list CronEntry :=
  match line_job line with
  | Some r =>
    match cron_Parse (Schedule r) with
    | Some _ => []
    | None => [mkEntry (Schedule r) r]
    end
  | None => []
  end.

Definition crontab_entries (lines : list gostring) : list CronEntry :=
  flat_map line_entries lines.

End Expected.

(** A field of a crontab line: not empty, ASCII, no white space. *)
Definition field (f : gostring) : Prop :=
  f <> []
  /\ Forall (fun c => byteval c < 128
                      /\ strings.asciiSpace (byteval c) = false) f.

(** A separator between two fields that the replacer turns into one
    space: a space, a tab, or two spaces. *)
Definition separator (s : gostring) : Prop :=
  s = str " " \/ s = [tab] \/ s = str "  ".

(** Where the next field starts: not with a space. *)
Definition starts_field (r : gostring) : Prop :=
  match r with
  | [] => True
  | c :: _ => Ascii.eqb c " "%char = false
  end.

(** A string of ASCII bytes. *)
Definition ascii_only (s : gostring) : Prop :=
  Forall (fun c => byteval c < 128) s.

(** The firing [w] had the standard output of the command broken off
    after [before], with a read that ends on [ErrTooLong]. *)
Definition cut_stdout (w : Firing) (before : list PipeEvent) : Firing :=
  mkFiring (lookPathErr w) (stdoutPipeErr w) (stderrPipeErr w) (startErr w)
           (mkPipe before (Some bufio.ErrTooLong)) (stderr w) (waitErr w).

(** A record of the size check of the reading loop. *)
Definition tooLarge (e : Effect) : bool :=
  match e with
  | ELog (mkLog InfoLevel _ None msg) =>
    gostring_eqb msg (str "message received was too large")
  | _ => false
  end.

Definition tooLargeRecords (tr : list Effect) : list Effect :=
  filter tooLarge tr.

(** A line short enough for the scanner to return it. *)
Definition scannable (e : PipeEvent) : Prop :=
  match e with
  | Line text => len text < bufio.MaxScanTokenSize
  | Tick => True
  end.

(** ** Sample inputs *)

Definition acceptAll : gostring -> option Err := fun _ => None.

Definition line_five_fields : gostring := str "* * * * *".
Definition line_curl_a : gostring := str "*/5 * * * * curl http://example.com".
Definition line_curl_b : gostring := str "0 2 * * * curl -s http://example.org".
Definition line_four_fields : gostring := str "1 2 3 echo".

Definition job_curl_a : Runnable :=
  createRunnable (str "curl") (str "http://example.com") (str "0 */5 * * * *").
Definition job_curl_b : Runnable :=
  createRunnable (str "curl") (str "-s http://example.org") (str "0 0 2 * * *").

Definition crontab_two : CrontabFile := Opened [line_curl_a; line_curl_b] None.

Definition world_two : World :=
  mkWorld (mkCron [mkEntry (str "0 */5 * * * *") job_curl_a;
                   mkEntry (str "0 0 2 * * *") job_curl_b] true)
          [cron_Stop cron_New]
          [ELog (mkLog InfoLevel (Some (contextLogger job_curl_a)) None
                       (str "job created"));
           ELog (mkLog InfoLevel (Some (contextLogger job_curl_b)) None
                       (str "job created"))].

(** A line of output one byte short of the buffer: with its newline it
    fills the buffer exactly. *)
Definition line_full : gostring :=
  repeat "a"%char (Z.to_nat (logBufferSize - 1)).

(** A line of output as long as the buffer: with its newline it is one
    byte too long. *)
Definition line_oversized : gostring :=
  repeat "a"%char (Z.to_nat logBufferSize).

Definition proc_fresh : Proc := mkProc job_curl_a [].

(** The execution after the line ["ok"] was read. *)
Definition proc_after_ok : Proc :=
  state_of (Run_stdout_line (str "ok") proc_fresh).

(** The execution after an empty line was read. *)
Definition proc_after_empty : Proc :=
  state_of (Run_stdout_line [] proc_fresh).

(** A firing whose command prints two lines and one line of error, with
    no firing of the periodic flusher meanwhile. *)
Definition firing_lines : Firing :=
  mkFiring (fun _ => None) None None None
           (mkPipe [Line (str "ok"); Line (str "done")] None)
           (mkPipe [Line (str "careful")] None) None.

Definition crontab_crashing : CrontabFile :=
  Opened [line_curl_a; line_five_fields; line_curl_b] None.

(** The mode of the crontab is changed. *)
Definition msgs_written : list WatcherMsg :=
  [FsEvent fsnotify.Chmod (str "/etc/crontab") (Opened [] None)].

(** A firing during which the periodic flusher fires before the first
    line of output. *)
Definition firing_tick_first : Firing :=
  mkFiring (fun _ => None) None None None
           (mkPipe [Tick; Line (str "again")] None) (mkPipe [] None) None.

(** A command that prints a line as long as the buffer between two short
    ones. *)
Definition firing_too_long : Firing :=
  mkFiring (fun _ => None) None None None
           (mkPipe [Line (str "ok"); Line line_oversized; Line (str "later")]
                   None)
           (mkPipe [] None) None.

(** A line that ends with a letter outside ASCII (C3 A9). *)
Definition line_echo_utf8 : gostring :=
  str "* * * * * echo caf" ++ map ascii_of_nat [195; 169]%nat.

Definition firing_not_found : Firing :=
  mkFiring (fun _ => Some (str "executable file not found in $PATH"))
           None None None (mkPipe [] None) (mkPipe [] None) None.

Definition firing_start_fails : Firing :=
  mkFiring (fun _ => None) None None
           (Some (str "fork/exec: permission denied"))
           (mkPipe [] (Some (str "read |0: file already closed")))
           (mkPipe [] (Some (str "read |0: file already closed")))
           (Some (str "exec: not started")).

Definition firing_ok : Firing :=
  mkFiring (fun _ => None) None None None
           (mkPipe [Line (str "ok"); Tick] None) (mkPipe [] None) None.

Example sha1_abc :
  hex.EncodeToString (sha1.Sum (str "abc"))
  = str "a9993e364706816aba3e25717850c26c9cd0d89d".
Proof. vm_compute. reflexivity. Qed.

Example sha1_empty :
  hex.EncodeToString (sha1.Sum [])
  = str "da39a3ee5e6b4b0d3255bfef95601890afd80709".
Proof. vm_compute. reflexivity. Qed.

Example sha1_two_blocks :
  hex.EncodeToString
    (sha1.Sum (str "abcdbcdecdefdefgefghfghighijhijkijkljklmklmnlmnomnopnopq"))
  = str "84983e441c3bd26ebaae4aa1f95129e5e54670f1".
Proof. vm_compute. reflexivity. Qed.


(** * Properties *)

(** ** The library models on known values *)

Example TrimSpace_ascii :
  strings.TrimSpace (str "  " ++ [tab] ++ str "a b " ++ [newline]) = str "a b".
Proof. vm_compute. reflexivity. Qed.

(** A no-break space (C2 A0) and an ideographic space (E3 80 80) are
    trimmed; a stray continuation byte is not. *)
Example TrimSpace_unicode :
  strings.TrimSpace
    (map ascii_of_nat [194; 160; 120; 128; 227; 128; 128; 32]%nat)
  = map ascii_of_nat [120; 128]%nat.
Proof. vm_compute. reflexivity. Qed.

Example Replace_runs :
  strings.Replace replacer (str "a   b" ++ [tab] ++ str "c    d")
  = str "a  b c  d".
Proof. vm_compute. reflexivity. Qed.

Example SplitN_six :
  strings.SplitN (str "a b c d e f") " "%char 7
  = mkSlice (map str ["a"; "b"; "c"; "d"; "e"; "f"; ""]%string) 6.
Proof. vm_compute. reflexivity. Qed.

Example Split_empty : elems (strings.Split [] " "%char) = [[]].
Proof. vm_compute. reflexivity. Qed.

(** The scanner drops the end-of-line markers, stops at a line of 64 KiB
    and reports it; a line one byte shorter is returned. *)
Example Scan_lines :
  bufio.Scan [Line (str "a" ++ [ascii_of_nat 13]); Tick; Line []; Line (str "b")]
             (Some (str "read |0: file already closed"))
  = ([Line (str "a"); Tick; Line []; Line (str "b")],
     Some (str "read |0: file already closed")).
Proof. vm_compute. reflexivity. Qed.

Example Scan_at_the_limit :
  let p := mkPipe [Line (repeat "a"%char
                                (Z.to_nat (bufio.MaxScanTokenSize - 1)));
                   Line (str "b")] None in
  map len (lineTexts (events p)) = [bufio.MaxScanTokenSize - 1; 1]
  /\ scanErr p = None.
Proof. split; vm_compute; reflexivity. Qed.

Example Scan_over_the_limit :
  let p := mkPipe [Line (str "a");
                   Line (repeat "a"%char (Z.to_nat bufio.MaxScanTokenSize));
                   Line (str "b")] None in
  events p = [Line (str "a")] /\ scanErr p = Some bufio.ErrTooLong.
Proof. split; vm_compute; reflexivity. Qed.

(** ** The control monad *)

Lemma bind_Ret {S A B : Type} (m : M S A) (k : A -> M S B) s a s' :
  m s = Ret a s' -> bind m k s = k a s'.
Proof. intros H. unfold bind. rewrite H. reflexivity. Qed.

Lemma forEach_app {S A : Type} (l1 l2 : list A) (body : A -> M S unit) s :
  forEach (l1 ++ l2) body s = (forEach l1 body ;;; forEach l2 body) s.
Proof.
  revert s. induction l1 as [|a l1 IH]; intros s; simpl.
  - reflexivity.
  - unfold bind. destruct (body a s); auto.
Qed.

(** ** Slices returned by [SplitN] *)

Lemma genSplit_slen_le_cap s sep n :
  (slen (strings.genSplit s sep n) <= cap (strings.genSplit s sep n))%nat.
Proof.
  unfold strings.genSplit, cap.
  destruct (n =? 0); simpl; [lia|].
  rewrite length_app. lia.
Qed.

Lemma tokens_length line :
  List.length (tokens line)
  = slen (strings.SplitN (normalized line) " "%char 7).
Proof.
  unfold tokens, elems, strings.SplitN.
  rewrite length_firstn.
  pose proof (genSplit_slen_le_cap (normalized line) " "%char 7) as H.
  unfold cap in H. lia.
Qed.

Lemma reslice_front {A : Type} (s : slice A) n :
  (n <= slen s)%nat -> (slen s <= cap s)%nat ->
  reslice s 0 n = Some (mkSlice (arr s) n).
Proof.
  intros H1 H2. unfold reslice.
  replace ((0 <=? n)%nat && (n <=? cap s)%nat) with true.
  - simpl. rewrite Nat.sub_0_r. reflexivity.
  - symmetry. apply andb_true_iff. split; apply Nat.leb_le; lia.
Qed.

Lemma index_at_len {A : Type} (s : slice A) : index s (slen s) = None.
Proof. unfold index. rewrite Nat.ltb_irrefl. reflexivity. Qed.

(** ** The crontab parser *)

Section Parser.

Variable cron_Parse : gostring -> option Err.

(** C2. A line that is empty once trimmed, that starts with [#] once
    trimmed, or that has fewer than five tokens, leaves the process as it
    was: no job is made, nothing reaches the scheduler, nothing is
    logged. *)
Theorem parseCrontabLine_ignores (line : gostring) (w : World) :
  strings.TrimSpace line = []
  \/ strings.HasPrefix (strings.TrimSpace line) (str "#") = true
  \/ (List.length (tokens line) < 5)%nat ->
  parseCrontabLine cron_Parse line w = Ret tt w.
Proof.
  intros H. unfold parseCrontabLine.
  destruct ((len (strings.TrimSpace line) <=? 0)
            || strings.HasPrefix (strings.TrimSpace line) (str "#")) eqn:E.
  - reflexivity.
  - apply orb_false_iff in E. destruct E as [E1 E2].
    destruct H as [H | [H | H]].
    + rewrite H in E1. discriminate.
    + congruence.
    + rewrite tokens_length in H. unfold normalized in H.
      apply Nat.ltb_lt in H. rewrite H. reflexivity.
Qed.

(** C1, at exactly five tokens.  A line with the five schedule fields and
    nothing else gets past the test on the number of tokens, and reading
    the command, [substrings[5]], then panics: no job is made. *)
Theorem parseCrontabLine_five_tokens_panics (line : gostring) (w : World) :
  strings.TrimSpace line <> [] ->
  strings.HasPrefix (strings.TrimSpace line) (str "#") = false ->
  List.length (tokens line) = 5%nat ->
  parseCrontabLine cron_Parse line w = Panic IndexOutOfRange w.
Proof.
  intros Hne Hhash Hlen. unfold parseCrontabLine.
  replace (len (strings.TrimSpace line) <=? 0) with false.
  2:{ symmetry. apply Z.leb_gt. unfold len.
      destruct (strings.TrimSpace line); [congruence | simpl; lia]. }
  rewrite Hhash. simpl orb. cbv iota.
  rewrite tokens_length in Hlen. unfold normalized in Hlen.
  set (sub := strings.SplitN _ _ _) in *.
  rewrite Hlen. simpl Nat.ltb. simpl Nat.leb. cbv iota.
  assert (Hcap : (slen sub <= cap sub)%nat)
    by apply genSplit_slen_le_cap.
  assert (Hidx : index sub 5 = None)
    by (rewrite <- Hlen; apply index_at_len).
  unfold bind at 1, ret at 1. cbv beta iota.
  unfold bind at 1. rewrite (reslice_front sub 5) by lia.
  unfold checked at 1, ret at 1. cbv beta iota zeta.
  unfold bind at 1. rewrite Hidx.
  reflexivity.
Qed.

End Parser.

(** ** Combinators for relational and invariant reasoning *)

Section Respects.

Context {S : Type} (R : S -> S -> Prop).

Lemma respects_ret {A : Type} (a : A) : respects R (ret a).
Proof. intros s t H. simpl. auto. Qed.

Lemma respects_panic {A : Type} k : respects R (@panic S A k).
Proof. intros s t H. simpl. auto. Qed.

Lemma respects_exit {A : Type} : respects R (@exit S A).
Proof. intros s t H. simpl. auto. Qed.

Lemma respects_checked {A : Type} k (o : option A) :
  respects R (checked k o).
Proof.
  destruct o; [apply respects_ret | apply respects_panic].
Qed.

Lemma respects_bind {A B : Type} (m : M S A) (k : A -> M S B) :
  respects R m -> (forall a, respects R (k a)) -> respects R (bind m k).
Proof.
  intros Hm Hk s t H. specialize (Hm s t H). unfold bind.
  destruct (m s), (m t); simpl in Hm; try contradiction; simpl; auto.
  destruct Hm as [-> Hm]. apply Hk. exact Hm.
Qed.

Lemma respects_modify (f : S -> S) :
  (forall s t, R s t -> R (f s) (f t)) -> respects R (modify f).
Proof. intros Hf s t H. simpl. auto. Qed.

Lemma respects_gets {A : Type} (f : S -> A) :
  (forall s t, R s t -> f s = f t) -> respects R (gets f).
Proof. intros Hf s t H. simpl. auto. Qed.

Lemma respects_forEach {A : Type} (l : list A) (body : A -> M S unit) :
  (forall a, respects R (body a)) -> respects R (forEach l body).
Proof.
  intros Hb. induction l as [|a l IH]; simpl.
  - apply respects_ret.
  - apply respects_bind; auto.
Qed.

End Respects.

Section Preserves.

Context {S : Type} (I : S -> Prop).

Lemma preserves_ret {A : Type} (a : A) : preserves I (ret a).
Proof. intros s H. exact H. Qed.

Lemma preserves_panic {A : Type} k : preserves I (@panic S A k).
Proof. intros s H. exact H. Qed.

Lemma preserves_exit {A : Type} : preserves I (@exit S A).
Proof. intros s H. exact H. Qed.

Lemma preserves_checked {A : Type} k (o : option A) :
  preserves I (checked k o).
Proof.
  destruct o; [apply preserves_ret | apply preserves_panic].
Qed.

Lemma preserves_bind {A B : Type} (m : M S A) (k : A -> M S B) :
  preserves I m -> (forall a, preserves I (k a)) -> preserves I (bind m k).
Proof.
  intros Hm Hk s H. specialize (Hm s H). unfold bind.
  destruct (m s); simpl in *; auto.
  apply Hk. exact Hm.
Qed.

Lemma preserves_modify (f : S -> S) :
  (forall s, I s -> I (f s)) -> preserves I (modify f).
Proof. intros Hf s H. simpl. auto. Qed.

Lemma preserves_gets {A : Type} (f : S -> A) : preserves I (gets f).
Proof. intros s H. exact H. Qed.

Lemma preserves_forEach {A : Type} (l : list A) (body : A -> M S unit) :
  (forall a, preserves I (body a)) -> preserves I (forEach l body).
Proof.
  intros Hb. induction l as [|a l IH]; simpl.
  - apply preserves_ret.
  - apply preserves_bind; auto.
Qed.

End Preserves.

(** ** Reload *)

Section Reload.

Variable cron_Parse : gostring -> option Err.

Lemma AddJob_respects spec cmd :
  respects same_sched (AddJob cron_Parse spec cmd).
Proof.
  intros w w' H. unfold AddJob, same_sched in *. rewrite <- H.
  destruct (cron_AddJob cron_Parse spec cmd (cronScheduler w)).
  simpl. auto.
Qed.

Lemma wlog_respects l : respects same_sched (wlog l).
Proof. apply respects_modify. intros s t H. exact H. Qed.

Lemma parseCrontabLine_respects line :
  respects same_sched (parseCrontabLine cron_Parse line).
Proof.
  unfold parseCrontabLine.
  destruct (_ || _); [apply respects_ret|].
  destruct (_ <? _)%nat; [apply respects_ret|].
  apply respects_bind.
  { destruct (_ <=? _)%nat; [|apply respects_ret].
    apply respects_bind; [apply respects_checked|].
    intros a. apply respects_ret. }
  intros args. apply respects_bind; [apply respects_checked|].
  intros five. cbv zeta. apply respects_bind; [apply respects_checked|].
  intros command. apply respects_bind; [apply AddJob_respects|].
  intros [e|]; apply wlog_respects.
Qed.

Lemma AddJob_identified spec command args schedule :
  preserves all_identified
            (AddJob cron_Parse spec (createRunnable command args schedule)).
Proof.
  intros w H. unfold AddJob, cron_AddJob.
  destruct (cron_Parse spec); simpl; [exact H|].
  unfold all_identified in *. simpl. apply Forall_app. split; [exact H|].
  constructor; [|constructor]. reflexivity.
Qed.

Lemma AddJob_retired X spec cmd :
  preserves (fun w => retired w = X) (AddJob cron_Parse spec cmd).
Proof.
  intros w H. unfold AddJob.
  destruct (cron_AddJob cron_Parse spec cmd (cronScheduler w)).
  simpl. exact H.
Qed.

(** The parser keeps [I] as soon as logging and [AddJob] of a fresh job
    do. *)
Lemma parseCrontabLine_preserves (I : World -> Prop) line :
  (forall l, preserves I (wlog l)) ->
  (forall spec command args schedule,
      preserves I (AddJob cron_Parse spec
                          (createRunnable command args schedule))) ->
  preserves I (parseCrontabLine cron_Parse line).
Proof.
  intros Hlog Hadd. unfold parseCrontabLine.
  destruct (_ || _); [apply preserves_ret|].
  destruct (_ <? _)%nat; [apply preserves_ret|].
  apply preserves_bind.
  { destruct (_ <=? _)%nat; [|apply preserves_ret].
    apply preserves_bind; [apply preserves_checked|].
    intros a. apply preserves_ret. }
  intros args. apply preserves_bind; [apply preserves_checked|].
  intros five. cbv zeta. apply preserves_bind; [apply preserves_checked|].
  intros command. apply preserves_bind; [apply Hadd|].
  intros [e|]; apply Hlog.
Qed.

(** What [initCron] does after it has replaced the scheduler. *)
Lemma initCron_unfold file w :
  initCron cron_Parse file w
  = match file with
    | OpenError err => (wlog (mkLog FatalLevel None None err) ;;; exit)
    | Opened lines scanErr =>
      forEach lines (parseCrontabLine cron_Parse) ;;;
      match scanErr with
      | Some err =>
        wlog (mkLog ErrorLevel None None
                    (str "failed reading crontab" ++ err))
      | None =>
        modify (fun w => mkWorld (cron_Start (cronScheduler w)) (retired w)
                                 (output w))
      end
    end (mkWorld cron_New (cron_Stop (cronScheduler w) :: retired w)
                 (output w)).
Proof. reflexivity. Qed.

Lemma initCron_rest_respects file :
  respects same_sched
    match file with
    | OpenError err => (wlog (mkLog FatalLevel None None err) ;;; exit)
    | Opened lines scanErr =>
      forEach lines (parseCrontabLine cron_Parse) ;;;
      match scanErr with
      | Some err =>
        wlog (mkLog ErrorLevel None None
                    (str "failed reading crontab" ++ err))
      | None =>
        modify (fun w => mkWorld (cron_Start (cronScheduler w)) (retired w)
                                 (output w))
      end
    end.
Proof.
  destruct file as [err | lines scanErr].
  - apply respects_bind; [apply wlog_respects|].
    intros _. apply respects_exit.
  - apply respects_bind.
    + apply respects_forEach. apply parseCrontabLine_respects.
    + intros _. destruct scanErr; [apply wlog_respects|].
      apply respects_modify. unfold same_sched. simpl.
      intros s t H. rewrite H. reflexivity.
Qed.

Lemma initCron_rest_preserves (I : World -> Prop) file :
  (forall l, preserves I (wlog l)) ->
  (forall spec command args schedule,
      preserves I (AddJob cron_Parse spec
                          (createRunnable command args schedule))) ->
  (forall w, I w -> I (mkWorld (cron_Start (cronScheduler w)) (retired w)
                               (output w))) ->
  preserves I
    match file with
    | OpenError err => (wlog (mkLog FatalLevel None None err) ;;; exit)
    | Opened lines scanErr =>
      forEach lines (parseCrontabLine cron_Parse) ;;;
      match scanErr with
      | Some err =>
        wlog (mkLog ErrorLevel None None
                    (str "failed reading crontab" ++ err))
      | None =>
        modify (fun w => mkWorld (cron_Start (cronScheduler w)) (retired w)
                                 (output w))
      end
    end.
Proof.
  intros Hlog Hadd Hstart.
  destruct file as [err | lines scanErr].
  - apply preserves_bind; [apply Hlog|].
    intros _. apply preserves_exit.
  - apply preserves_bind.
    + apply preserves_forEach. intros line.
      apply parseCrontabLine_preserves; assumption.
    + intros _. destruct scanErr; [apply Hlog|].
      apply preserves_modify. exact Hstart.
Qed.

Lemma initCron_retired file w :
  retired (state_of (initCron cron_Parse file w))
  = cron_Stop (cronScheduler w) :: retired w.
Proof.
  rewrite initCron_unfold.
  apply (initCron_rest_preserves
           (fun x => retired x = cron_Stop (cronScheduler w) :: retired w)).
  - intros l s H. exact H.
  - intros. apply AddJob_retired.
  - intros s H. exact H.
  - reflexivity.
Qed.

Lemma initCron_identified file w :
  all_identified (state_of (initCron cron_Parse file w)).
Proof.
  rewrite initCron_unfold.
  apply (initCron_rest_preserves all_identified).
  - intros l s H. exact H.
  - intros. apply AddJob_identified.
  - intros s H. exact H.
  - constructor.
Qed.

(** C9. A reload ends the same way and with the same scheduler (the same
    entries, in the same order, started or not) whatever the process was
    before: the scheduler it leaves is built from the file alone.  So a
    second reload of the same file, after a first one that returned,
    returns as well and leaves an equal scheduler, and the instance of
    the first reload is stopped and set aside, not added to. *)
Theorem initCron_idempotent (file : CrontabFile) (w : World) :
  (forall w', res_rel same_sched (initCron cron_Parse file w)
                      (initCron cron_Parse file w'))
  /\ (forall w1, initCron cron_Parse file w = Ret tt w1 ->
      exists w2,
        initCron cron_Parse file w1 = Ret tt w2
        /\ cronScheduler w2 = cronScheduler w1
        /\ retired w2 = cron_Stop (cronScheduler w1) :: retired w1).
Proof.
  assert (Hrel : forall w', res_rel same_sched (initCron cron_Parse file w)
                                    (initCron cron_Parse file w')).
  { intros w'. rewrite !initCron_unfold.
    apply initCron_rest_respects. reflexivity. }
  split; [exact Hrel|].
  intros w1 H1. specialize (Hrel w1).
  pose proof (initCron_retired file w1) as Hret.
  rewrite H1 in Hrel.
  destruct (initCron cron_Parse file w1) as [[] w2| |];
    simpl in Hrel; try contradiction.
  exists w2. destruct Hrel as [_ Hrel]. simpl in Hret.
  unfold same_sched in Hrel. auto.
Qed.

End Reload.

(** ** The output buffer *)

Lemma logBufferSize_eq : logBufferSize = 524288.
Proof. reflexivity. Qed.

Lemma len_nonneg {A : Type} (l : list A) : 0 <= len l.
Proof. unfold len. lia. Qed.

Lemma len_app {A : Type} (l1 l2 : list A) : len (l1 ++ l2) = len l1 + len l2.
Proof. unfold len. rewrite length_app. lia. Qed.

Lemma createRunnable_buffer_ok command args schedule :
  buffer_ok (createRunnable command args schedule).
Proof.
  unfold buffer_ok, createRunnable. cbn [buffer bufferPos].
  unfold len. rewrite repeat_length.
  pose proof logBufferSize_eq. lia.
Qed.

Lemma bytes_sub_front b pos :
  0 <= pos <= len b -> bytes_sub b 0 pos = Some (firstn (Z.to_nat pos) b).
Proof.
  intros H. unfold bytes_sub.
  replace ((0 <=? 0) && (0 <=? pos) && (pos <=? len b)) with true.
  - rewrite Z.sub_0_r. reflexivity.
  - symmetry. rewrite !andb_true_iff. repeat split; apply Z.leb_le; lia.
Qed.

Lemma copy_at_fits b pos src :
  0 <= pos -> pos + len src <= len b ->
  copy_at b pos src
  = Some (firstn (Z.to_nat pos) b ++ src
          ++ skipn (Z.to_nat pos + List.length src) b).
Proof.
  intros H0 H. unfold copy_at. unfold len in *.
  replace ((0 <=? pos) && (pos <=? Z.of_nat (List.length b))) with true.
  - replace (Nat.min (List.length b - Z.to_nat pos) (List.length src))
      with (List.length src) by lia.
    rewrite firstn_all. reflexivity.
  - symmetry. rewrite andb_true_iff. split; apply Z.leb_le; lia.
Qed.

Lemma appended_buffer_ok message r :
  buffer_ok r -> bufferPos r + len message <= logBufferSize ->
  buffer_ok (appended message r).
Proof.
  intros [Hl Hp] Hfit. unfold buffer_ok, appended. cbn [buffer bufferPos].
  pose proof (len_nonneg message) as Hm.
  split; [|lia].
  unfold len in *. rewrite !length_app, length_firstn, length_skipn. lia.
Qed.

(** [flush] on a sound buffer: nothing at cursor zero, else the content
    before the cursor, trimmed, goes into one record and the cursor goes
    back to zero. *)
Lemma flush_spec p :
  buffer_ok (self p) ->
  flush p
  = Ret tt (if bufferPos (self p) =? 0 then p
            else mkProc (set_bufferPos 0 (self p))
                        (trace p ++ [flushRecord (self p)
                                       (strings.TrimSpace (region (self p)))])).
Proof.
  intros [Hl Hp]. unfold flush. mstep. unfold gets at 1.
  destruct (bufferPos (self p) =? 0) eqn:E; [reflexivity|].
  mstep. rewrite bytes_sub_front by lia.
  reflexivity.
Qed.

Lemma flush_buffer_ok p :
  buffer_ok (self p) ->
  exists p', flush p = Ret tt p' /\ buffer_ok (self p').
Proof.
  intros H. rewrite (flush_spec p H). eexists. split; [reflexivity|].
  destruct (bufferPos (self p) =? 0); [exact H|].
  destruct H as [Hl Hp]. split; simpl; [exact Hl|].
  pose proof logBufferSize_eq. lia.
Qed.

Lemma len_message text : len (text ++ [newline]) = len text + 1.
Proof. rewrite len_app. reflexivity. Qed.

Lemma Run_stdout_line_oversized text p :
  logBufferSize < len text + 1 ->
  Run_stdout_line text p
  = Ret tt (mkProc (self p) (trace p ++ [tooLargeRecord (self p)])).
Proof.
  intros H. unfold Run_stdout_line. cbv zeta. rewrite len_message.
  apply Z.ltb_lt in H. rewrite H. reflexivity.
Qed.

Lemma Run_stdout_line_direct text p :
  buffer_ok (self p) ->
  len text + 1 + bufferPos (self p) <= logBufferSize ->
  Run_stdout_line text p
  = Ret tt (mkProc (appended (text ++ [newline]) (self p)) (trace p)).
Proof.
  intros [Hl Hp] H. unfold Run_stdout_line. cbv zeta.
  pose proof (len_nonneg text) as Ht.
  pose proof (len_message text) as Hm.
  replace (logBufferSize <? len (text ++ [newline])) with false
    by (symmetry; apply Z.ltb_ge; lia).
  mstep. unfold gets at 1.
  replace (logBufferSize <? len (text ++ [newline]) + bufferPos (self p))
    with false by (symmetry; apply Z.ltb_ge; lia).
  mstep. unfold ret at 1. mstep. unfold gets at 1. mstep.
  rewrite copy_at_fits by lia.
  reflexivity.
Qed.

Lemma Run_stdout_line_overflow text p :
  buffer_ok (self p) ->
  len text + 1 <= logBufferSize ->
  logBufferSize < len text + 1 + bufferPos (self p) ->
  Run_stdout_line text p
  = Ret tt (mkProc (appended (text ++ [newline]) (set_bufferPos 0 (self p)))
                   (trace p ++ [flushRecord (self p)
                                  (strings.TrimSpace (region (self p)))])).
Proof.
  intros Hok Hfit Hover. pose proof Hok as [Hl Hp].
  unfold Run_stdout_line. cbv zeta.
  pose proof (len_nonneg text) as Ht.
  pose proof (len_message text) as Hm.
  replace (logBufferSize <? len (text ++ [newline])) with false
    by (symmetry; apply Z.ltb_ge; lia).
  mstep. unfold gets at 1.
  replace (logBufferSize <? len (text ++ [newline]) + bufferPos (self p))
    with true by (symmetry; apply Z.ltb_lt; lia).
  mstep. rewrite (flush_spec p Hok).
  replace (bufferPos (self p) =? 0) with false
    by (symmetry; apply Z.eqb_neq; lia).
  mstep. unfold gets at 1. cbn [self trace]. mstep.
  rewrite copy_at_fits by (cbn [set_bufferPos buffer bufferPos]; lia).
  reflexivity.
Qed.

(** One round of the reading loop on a sound buffer returns and leaves a
    sound buffer. *)
Lemma Run_stdout_line_buffer_ok text p :
  buffer_ok (self p) ->
  exists p', Run_stdout_line text p = Ret tt p' /\ buffer_ok (self p').
Proof.
  intros Hok. pose proof Hok as [Hl Hp].
  pose proof (len_nonneg text) as Ht.
  destruct (Z_lt_dec logBufferSize (len text + 1)) as [Hbig | Hfit].
  - rewrite Run_stdout_line_oversized by exact Hbig.
    eexists. split; [reflexivity | exact Hok].
  - destruct (Z_lt_dec logBufferSize (len text + 1 + bufferPos (self p)))
      as [Hover | Hroom].
    + rewrite Run_stdout_line_overflow by (auto; lia).
      eexists. split; [reflexivity|]. cbn [self].
      apply appended_buffer_ok.
      * split; cbn [set_bufferPos buffer bufferPos]; [exact Hl|lia].
      * cbn [set_bufferPos bufferPos]. rewrite len_message. lia.
    + rewrite Run_stdout_line_direct by (auto; lia).
      eexists. split; [reflexivity|]. cbn [self].
      apply appended_buffer_ok; [exact Hok|]. rewrite len_message. lia.
Qed.

(** C4. The cursor stays within the buffer: the invariant holds for a job
    just created and each round of the reading loop and each flush keeps
    it, so it holds in every state the buffer can reach. *)
Theorem buffer_cursor_invariant (r : Runnable) :
  reachable r -> len (buffer r) = logBufferSize
                 /\ 0 <= bufferPos r <= logBufferSize.
Proof.
  induction 1 as [command args schedule | r tr text p' Hr IH Hstep
                 | r tr p' Hr IH Hstep].
  - apply createRunnable_buffer_ok.
  - destruct (Run_stdout_line_buffer_ok text (mkProc r tr) IH)
      as [q [Hq Hok]].
    rewrite Hq in Hstep. injection Hstep as <-. exact Hok.
  - destruct (flush_buffer_ok (mkProc r tr) IH) as [q [Hq Hok]].
    rewrite Hq in Hstep. injection Hstep as <-. exact Hok.
Qed.

(** C5. A message that fits in the buffer but not in the room left makes
    the loop flush first: the record holds the content before the cursor,
    trimmed; the message is then stored from cursor zero, as it would be in
    the flushed buffer. *)
Theorem overflow_flushes_first (text : gostring) (p : Proc) :
  buffer_ok (self p) ->
  len text + 1 <= logBufferSize ->
  logBufferSize < len text + 1 + bufferPos (self p) ->
  let record := flushRecord (self p) (strings.TrimSpace (region (self p))) in
  let flushed := mkProc (set_bufferPos 0 (self p)) (trace p ++ [record]) in
  flush p = Ret tt flushed
  /\ Run_stdout_line text p = Run_stdout_line text flushed
  /\ exists p',
      Run_stdout_line text p = Ret tt p'
      /\ trace p' = trace p ++ [record]
      /\ bufferPos (self p') = len text + 1
      /\ firstn (List.length text + 1) (buffer (self p')) = text ++ [newline].
Proof.
  intros Hok Hfit Hover record flushed. pose proof Hok as [Hl Hp].
  pose proof (len_nonneg text) as Ht.
  assert (Hok' : buffer_ok (self flushed)).
  { split; cbn [flushed self set_bufferPos buffer bufferPos]; [exact Hl|lia]. }
  split; [|split].
  - rewrite (flush_spec p Hok).
    replace (bufferPos (self p) =? 0) with false
      by (symmetry; apply Z.eqb_neq; lia).
    reflexivity.
  - rewrite Run_stdout_line_overflow by assumption.
    rewrite Run_stdout_line_direct
      by (auto; cbn [flushed self set_bufferPos bufferPos]; lia).
    reflexivity.
  - rewrite Run_stdout_line_overflow by assumption.
    eexists. split; [reflexivity|].
    cbn [self trace appended set_bufferPos bufferPos buffer].
    split; [reflexivity|]. split; [rewrite len_message; lia|].
    change (Z.to_nat 0) with 0%nat. cbn [firstn app].
    replace (List.length text + 1)%nat
      with (List.length (text ++ [newline]) + 0)%nat
      by (rewrite length_app; simpl; lia).
    rewrite firstn_app_2. cbn [firstn]. apply app_nil_r.
Qed.

(** ** The reading loops *)

Lemma stdout_loop_buffer_ok evs p :
  buffer_ok (self p) ->
  exists p', forEach evs (onEvent Run_stdout_line) p = Ret tt p'
             /\ buffer_ok (self p').
Proof.
  revert p. induction evs as [|e evs IH]; intros p Hok.
  - exists p. split; [reflexivity | exact Hok].
  - assert (Hstep : exists q, onEvent Run_stdout_line e p = Ret tt q
                              /\ buffer_ok (self q)).
    { destruct e as [text|]; simpl.
      - apply Run_stdout_line_buffer_ok; exact Hok.
      - apply flush_buffer_ok; exact Hok. }
    destruct Hstep as [q [Hq Hokq]].
    destruct (IH q Hokq) as [p' [Hp' Hok']].
    exists p'. split; [|exact Hok'].
    simpl. rewrite (bind_Ret _ _ _ _ _ Hq). exact Hp'.
Qed.

Lemma flushOutputs_app tr1 tr2 :
  flushOutputs (tr1 ++ tr2) = flushOutputs tr1 ++ flushOutputs tr2.
Proof. apply flat_map_app. Qed.

Lemma emit_same_flushes e : respects same_flushes (emit e).
Proof.
  apply respects_modify. intros s t [Hs Ht]. split; simpl; [exact Hs|].
  rewrite !flushOutputs_app, Ht. reflexivity.
Qed.

Lemma update_same_flushes f : respects same_flushes (update f).
Proof.
  apply respects_modify. intros s t [Hs Ht]. split; simpl; [|exact Ht].
  rewrite Hs. reflexivity.
Qed.

Lemma gets_self_same_flushes : respects same_flushes (gets self).
Proof. apply respects_gets. intros s t [Hs _]. exact Hs. Qed.

Lemma ctxLog_same_flushes lvl field msg :
  respects same_flushes (ctxLog lvl field msg).
Proof.
  apply respects_bind; [apply gets_self_same_flushes|].
  intros r. apply emit_same_flushes.
Qed.

Lemma flush_same_flushes : respects same_flushes flush.
Proof.
  apply respects_bind; [apply gets_self_same_flushes|].
  intros r. destruct (_ =? _); [apply respects_ret|].
  apply respects_bind; [apply respects_checked|].
  intros b. cbv zeta. apply respects_bind; [apply update_same_flushes|].
  intros _. apply ctxLog_same_flushes.
Qed.

Lemma Run_stdout_line_same_flushes text :
  respects same_flushes (Run_stdout_line text).
Proof.
  unfold Run_stdout_line. cbv zeta.
  destruct (_ <? _); [apply ctxLog_same_flushes|].
  apply respects_bind; [apply gets_self_same_flushes|].
  intros r. apply respects_bind.
  { destruct (_ <? _); [apply flush_same_flushes | apply respects_ret]. }
  intros _. apply respects_bind; [apply gets_self_same_flushes|].
  intros r'. apply respects_bind; [apply respects_checked|].
  intros b. apply respects_bind; [apply update_same_flushes|].
  intros _. apply update_same_flushes.
Qed.

Lemma stdout_loop_same_flushes evs :
  respects same_flushes (forEach evs (onEvent Run_stdout_line)).
Proof.
  apply respects_forEach. intros [text|]; simpl.
  - apply Run_stdout_line_same_flushes.
  - apply flush_same_flushes.
Qed.

Lemma logErr_spec e q : logErr e q = Ret tt (withErr e q).
Proof. destruct e; reflexivity. Qed.

Lemma withErr_self e q : self (withErr e q) = self q.
Proof. destruct e; reflexivity. Qed.

Lemma stderr_loop_buffer_ok evs p :
  buffer_ok (self p) ->
  exists p', forEach evs (onEvent Run_stderr_line) p = Ret tt p'
             /\ buffer_ok (self p').
Proof.
  revert p. induction evs as [|e evs IH]; intros p Hok.
  - exists p. split; [reflexivity | exact Hok].
  - assert (Hstep : exists q, onEvent Run_stderr_line e p = Ret tt q
                              /\ buffer_ok (self q)).
    { destruct e as [text|]; simpl.
      - eexists. split; [reflexivity | exact Hok].
      - apply flush_buffer_ok; exact Hok. }
    destruct Hstep as [q [Hq Hokq]].
    destruct (IH q Hokq) as [p' [Hp' Hok']].
    exists p'. split; [|exact Hok'].
    simpl. rewrite (bind_Ret _ _ _ _ _ Hq). exact Hp'.
Qed.

(** From a sound buffer the rest of [Run] goes through both loops, waits,
    clears the flag and returns. *)
Lemma Run_after_start_spec w cmd q :
  buffer_ok (self q) ->
  exists q1 q2,
    forEach (events (stdout w)) (onEvent Run_stdout_line) q = Ret tt q1
    /\ forEach (events (stderr w)) (onEvent Run_stderr_line)
               (withErr (scanErr (stdout w)) q1) = Ret tt q2
    /\ Run_after_start w cmd q = Ret tt (at_end w cmd q2).
Proof.
  intros Hok.
  destruct (stdout_loop_buffer_ok (events (stdout w)) q Hok)
    as [q1 [H1 Hok1]].
  assert (Hok1' : buffer_ok (self (withErr (scanErr (stdout w)) q1)))
    by (rewrite withErr_self; exact Hok1).
  destruct (stderr_loop_buffer_ok (events (stderr w)) _ Hok1')
    as [q2 [H2 Hok2]].
  exists q1, q2. split; [exact H1|]. split; [exact H2|].
  unfold Run_after_start.
  rewrite (bind_Ret _ _ _ _ _ H1).
  rewrite (bind_Ret _ _ _ _ _ (logErr_spec _ _)).
  rewrite (bind_Ret _ _ _ _ _ H2).
  rewrite (bind_Ret _ _ _ _ _ (logErr_spec _ _)).
  mstep. unfold emit at 1, modify at 1. cbv beta iota.
  rewrite (bind_Ret _ _ _ _ _ (logErr_spec _ _)).
  reflexivity.
Qed.

(** ** Run *)

Section Execution.

Variable executer : gostring.
Variable SHELL : gostring.

Lemma Run_started w p :
  lookPathErr w (Command (self p)) = None ->
  stdoutPipeErr w = None ->
  stderrPipeErr w = None ->
  Run executer SHELL w p
  = Run_after_start w (Run_command executer SHELL (self p))
      (at_start (Run_command executer SHELL (self p)) (startErr w) p).
Proof.
  intros HL H1 H2. unfold Run. mstep. unfold gets at 1.
  rewrite HL, H1, H2. cbv zeta.
  mstep. unfold update at 1, modify at 1. cbv beta iota.
  mstep. unfold emit at 1, modify at 1. cbv beta iota.
  mstep. unfold emit at 1, modify at 1. cbv beta iota.
  cbn [self trace].
  rewrite (bind_Ret _ _ _ _ _ (logErr_spec _ _)).
  unfold at_start. rewrite <- app_assoc. reflexivity.
Qed.

(** C7. When the command is not found, [Run] writes the error to the
    log and returns: the [Runnable] is as before (flag and cursor
    included) and no other effect is produced, no start of a process in
    particular.  Fired by the scheduler, such a job leaves the scheduler
    and its entries as they were, so it is fired again when next due. *)
Theorem Run_command_not_found (w : Firing) (err : Err) :
  (forall p,
      lookPathErr w (Command (self p)) = Some err ->
      Run executer SHELL w p
      = Ret tt (mkProc (self p) (trace p ++ [errorRecord (self p) err])))
  /\ (forall i e world,
      nth_error (entries (cronScheduler world)) i = Some e ->
      lookPathErr w (Command (Job e)) = Some err ->
      exists world',
        fire executer SHELL i w world = Ret tt world'
        /\ cronScheduler world' = cronScheduler world
        /\ retired world' = retired world
        /\ output world' = output world ++ [errorRecord (Job e) err]).
Proof.
  assert (HRun : forall p,
             lookPathErr w (Command (self p)) = Some err ->
             Run executer SHELL w p
             = Ret tt (mkProc (self p)
                              (trace p ++ [errorRecord (self p) err]))).
  { intros p H. unfold Run. mstep. unfold gets at 1. rewrite H.
    reflexivity. }
  split; [exact HRun|].
  intros i e world Hnth HL. unfold fire. rewrite Hnth.
  rewrite HRun by exact HL. cbn [self trace].
  eexists. split; [reflexivity|]. cbn [cronScheduler retired output].
  split; [|split; reflexivity].
  destruct (cronScheduler world) as [es run]. cbn [entries running] in *.
  f_equal. clear - Hnth. revert i Hnth.
  induction es as [|x es IH]; intros [|i] H; simpl in *;
    try discriminate.
  - injection H as ->. destruct e. reflexivity.
  - rewrite IH by exact H. reflexivity.
Qed.

(** C10. When the start of the process fails, [Run] logs the error and
    goes on as after a start that succeeded: with the flag set, it reads
    the standard output to the end, then the standard error, waits, and
    clears the flag. *)
Theorem Run_start_failure (w : Firing) (p : Proc) (err : Err) :
  lookPathErr w (Command (self p)) = None ->
  stdoutPipeErr w = None ->
  stderrPipeErr w = None ->
  startErr w = Some err ->
  buffer_ok (self p) ->
  let cmd := Run_command executer SHELL (self p) in
  let failed :=
    mkProc (set_isRunning true (self p))
           (trace p ++ [EGoFlushPeriodically; EStart cmd;
                        errorRecord (self p) err]) in
  Run executer SHELL w p = Run_after_start w cmd failed
  /\ exists q1 q2,
      forEach (events (stdout w)) (onEvent Run_stdout_line) failed
      = Ret tt q1
      /\ forEach (events (stderr w)) (onEvent Run_stderr_line)
                 (withErr (scanErr (stdout w)) q1) = Ret tt q2
      /\ Run executer SHELL w p = Ret tt (at_end w cmd q2)
      /\ isRunning (self (at_end w cmd q2)) = false
      /\ In (EWait cmd) (trace (at_end w cmd q2)).
Proof.
  intros HL H1 H2 HS Hok cmd failed.
  assert (Heq : Run executer SHELL w p = Run_after_start w cmd failed).
  { rewrite Run_started by assumption. rewrite HS.
    unfold at_start, withErr, failed, errorRecord. cbn [self trace].
    rewrite <- app_assoc. reflexivity. }
  split; [exact Heq|].
  assert (Hokf : buffer_ok (self failed)) by exact Hok.
  destruct (Run_after_start_spec w cmd failed Hokf) as [q1 [q2 [A [B C]]]].
  exists q1, q2. split; [exact A|]. split; [exact B|].
  split; [rewrite Heq; exact C|].
  split; [reflexivity|].
  unfold at_end. cbn [trace].
  destruct (waitErr w); cbn [withErr trace self];
    rewrite ?in_app_iff; simpl; auto.
Qed.

End Execution.

(** ** [strings.Split] against the plain split *)

Section Split.

Variable sep : ascii.

Lemma Count_nonneg s : 0 <= strings.Count s sep.
Proof.
  induction s as [|x t IH]; simpl; [lia|].
  destruct (Ascii.eqb x sep); lia.
Qed.

Lemma Count_le_len s : strings.Count s sep <= len s.
Proof.
  unfold len. induction s as [|x t IH]; simpl List.length; simpl strings.Count;
    [lia|].
  destruct (Ascii.eqb x sep); lia.
Qed.

Lemma IndexByte_lower s : -1 <= strings.IndexByte s sep.
Proof.
  induction s as [|x t IH]; simpl; [lia|].
  destruct (Ascii.eqb x sep); [lia|].
  destruct (strings.IndexByte t sep <? 0) eqn:E; [lia|].
  apply Z.ltb_ge in E. lia.
Qed.

Lemma IndexByte_absent s :
  strings.IndexByte s sep < 0 -> splitOn sep s = [s].
Proof.
  induction s as [|x t IH]; simpl; [reflexivity|].
  destruct (Ascii.eqb x sep); [lia|].
  destruct (strings.IndexByte t sep <? 0) eqn:E.
  - intros _. apply Z.ltb_lt in E. rewrite (IH E). reflexivity.
  - apply Z.ltb_ge in E. lia.
Qed.

Lemma IndexByte_present s :
  0 <= strings.IndexByte s sep ->
  let m := Z.to_nat (strings.IndexByte s sep) in
  splitOn sep s = firstn m s :: splitOn sep (skipn (m + 1) s)
  /\ strings.Count s sep = 1 + strings.Count (skipn (m + 1) s) sep.
Proof.
  induction s as [|x t IH]; simpl; [lia|].
  destruct (Ascii.eqb x sep) eqn:Ex.
  - intros _. simpl. split; reflexivity.
  - destruct (strings.IndexByte t sep <? 0) eqn:E; [lia|].
    apply Z.ltb_ge in E. intros _.
    destruct (IH E) as [IH1 IH2].
    replace (Z.to_nat (strings.IndexByte t sep + 1))
      with (S (Z.to_nat (strings.IndexByte t sep))) by lia.
    simpl. rewrite IH1. split; [reflexivity | exact IH2].
Qed.

Lemma Count_zero_absent s :
  strings.Count s sep <= 0 -> strings.IndexByte s sep < 0.
Proof.
  induction s as [|x t IH]; simpl; [lia|].
  pose proof (Count_nonneg t).
  destruct (Ascii.eqb x sep); [lia|].
  intros H0. assert (Ht : strings.IndexByte t sep < 0) by (apply IH; lia).
  apply Z.ltb_lt in Ht. rewrite Ht. lia.
Qed.

(** With enough rounds the loop of [genSplit] cuts at every
    separator. *)
Lemma genSplit_loop_all k s :
  strings.Count s sep <= Z.of_nat k ->
  strings.genSplit_loop k s sep = splitOn sep s.
Proof.
  revert s. induction k as [|k IH]; intros s H; simpl.
  - symmetry. apply IndexByte_absent. apply Count_zero_absent. lia.
  - destruct (strings.IndexByte s sep <? 0) eqn:E.
    + apply Z.ltb_lt in E. symmetry. apply IndexByte_absent. exact E.
    + apply Z.ltb_ge in E.
      destruct (IndexByte_present s E) as [H1 H2]. cbv zeta in *.
      rewrite H1. f_equal. apply IH. lia.
Qed.

Lemma splitOn_length s :
  Z.of_nat (List.length (splitOn sep s)) = strings.Count s sep + 1.
Proof.
  induction s as [|x t IH]; [reflexivity|].
  cbn [splitOn strings.Count].
  destruct (Ascii.eqb x sep).
  - cbn [List.length]. lia.
  - pose proof (Count_nonneg t).
    destruct (splitOn sep t) eqn:E; cbn [List.length] in *; lia.
Qed.

(** [strings.Split] gives the pieces between the separators, all of
    them. *)
Lemma Split_splitOn s : elems (strings.Split s sep) = splitOn sep s.
Proof.
  unfold strings.Split, strings.genSplit.
  change (-1 =? 0) with false. change (-1 <? 0) with true. cbv iota.
  pose proof (Count_le_len s) as Hle.
  pose proof (Count_nonneg s) as H0.
  replace (len s + 1 <? strings.Count s sep + 1) with false
    by (symmetry; apply Z.ltb_ge; lia).
  rewrite genSplit_loop_all by lia.
  unfold elems. cbn [arr slen].
  rewrite firstn_app, Nat.sub_diag, firstn_all. simpl.
  apply app_nil_r.
Qed.

End Split.

(** ** The commands [Run] starts *)

Section Started.

Variable X : list Cmd.

Let I (q : Proc) : Prop := started (trace q) = X.

Lemma emit_started e : startedCmd e = [] -> preserves I (emit e).
Proof.
  intros He. apply preserves_modify. intros s H. unfold I in *. simpl.
  unfold started in *. rewrite flat_map_app, H. simpl. rewrite He.
  apply app_nil_r.
Qed.

Lemma update_started f : preserves I (update f).
Proof. apply preserves_modify. intros s H. exact H. Qed.

Lemma ctxLog_started lvl field msg : preserves I (ctxLog lvl field msg).
Proof.
  apply preserves_bind; [apply preserves_gets|].
  intros r. apply emit_started. reflexivity.
Qed.

Lemma flush_started : preserves I flush.
Proof.
  apply preserves_bind; [apply preserves_gets|].
  intros r. destruct (_ =? _); [apply preserves_ret|].
  apply preserves_bind; [apply preserves_checked|].
  intros b. cbv zeta. apply preserves_bind; [apply update_started|].
  intros _. apply ctxLog_started.
Qed.

Lemma Run_stdout_line_started text : preserves I (Run_stdout_line text).
Proof.
  unfold Run_stdout_line. cbv zeta.
  destruct (_ <? _); [apply ctxLog_started|].
  apply preserves_bind; [apply preserves_gets|].
  intros r. apply preserves_bind.
  { destruct (_ <? _); [apply flush_started | apply preserves_ret]. }
  intros _. apply preserves_bind; [apply preserves_gets|].
  intros r'. apply preserves_bind; [apply preserves_checked|].
  intros b. apply preserves_bind; [apply update_started|].
  intros _. apply update_started.
Qed.

Lemma logErr_started e : preserves I (logErr e).
Proof. destruct e; [apply ctxLog_started | apply preserves_ret]. Qed.

Lemma Run_after_start_started w cmd : preserves I (Run_after_start w cmd).
Proof.
  unfold Run_after_start.
  apply preserves_bind.
  { apply preserves_forEach. intros [text|]; simpl;
      [apply Run_stdout_line_started | apply flush_started]. }
  intros _. apply preserves_bind; [apply logErr_started|].
  intros _. apply preserves_bind.
  { apply preserves_forEach. intros [text|]; simpl;
      [apply ctxLog_started | apply flush_started]. }
  intros _. apply preserves_bind; [apply logErr_started|].
  intros _. apply preserves_bind; [apply emit_started; reflexivity|].
  intros _. apply preserves_bind; [apply logErr_started|].
  intros _. apply update_started.
Qed.

End Started.

Section Invocation.

Variable executer : gostring.
Variable SHELL : gostring.

Lemma Run_starts_Run_command w p :
  lookPathErr w (Command (self p)) = None ->
  stdoutPipeErr w = None ->
  stderrPipeErr w = None ->
  started (trace (state_of (Run executer SHELL w p)))
  = started (trace p) ++ [Run_command executer SHELL (self p)].
Proof.
  intros HL H1 H2. rewrite Run_started by assumption.
  apply Run_after_start_started.
  unfold at_start. destruct (startErr w); cbn [withErr trace];
    unfold started; rewrite ?flat_map_app; simpl;
    rewrite ?app_nil_r; reflexivity.
Qed.

(** C8. Whenever [Run] gets as far as starting a process, it starts one
    command, built from the flag: with the executer ["go"], the job's
    command with the pieces of the argument string between spaces as its
    arguments; otherwise the shell with ["-c"] and, as one argument, the
    command, a space and the argument string. *)
Theorem Run_invocation (w : Firing) (p : Proc) :
  lookPathErr w (Command (self p)) = None ->
  stdoutPipeErr w = None ->
  stderrPipeErr w = None ->
  let r := self p in
  (executer = str "go" ->
   started (trace (state_of (Run executer SHELL w p)))
   = started (trace p)
     ++ [mkCmd (Command r) (Command r :: splitOn " "%char (Args r))])
  /\ (executer <> str "go" ->
      started (trace (state_of (Run executer SHELL w p)))
      = started (trace p)
        ++ [mkCmd SHELL
                  [SHELL; str "-c"; Command r ++ str " " ++ Args r]]).
Proof.
  intros HL H1 H2 r.
  rewrite (Run_starts_Run_command w p HL H1 H2).
  unfold Run_command, gostring_eqb. fold r.
  destruct (list_eq_dec ascii_dec executer (str "go")) as [E | E].
  - split; [|intros N; contradiction].
    intros _. rewrite Split_splitOn. reflexivity.
  - split; [intros N; contradiction|].
    intros _. reflexivity.
Qed.

End Invocation.

(** ** What [TrimSpace] and the replacer leave at the front of a line *)

Lemma asciiSpace_inv b :
  strings.asciiSpace b = true -> (9 <= b <= 13) \/ b = 32.
Proof.
  unfold strings.asciiSpace. rewrite orb_true_iff, andb_true_iff.
  rewrite !Z.leb_le, Z.eqb_eq. tauto.
Qed.

Lemma decode_asciiSpace c t :
  strings.asciiSpace (byteval c) = true ->
  unicode.IsSpace (fst (utf8.DecodeRuneInString (c :: t))) = true.
Proof.
  intros H. pose proof (asciiSpace_inv _ H) as Hb.
  unfold utf8.DecodeRuneInString.
  replace (byteval c <? utf8.RuneSelf) with true
    by (symmetry; apply Z.ltb_lt; unfold utf8.RuneSelf; lia).
  cbn [fst]. unfold unicode.IsSpace.
  replace (byteval c <=? 255) with true by (symmetry; apply Z.leb_le; lia).
  unfold strings.asciiSpace in H. rewrite H. reflexivity.
Qed.

Lemma clean_head_firstn k s : clean_head s -> clean_head (firstn k s).
Proof. destruct s, k; simpl; auto. Qed.

Lemma indexFunc_loop_clean fuel rest i :
  let r := strings.indexFunc_loop fuel unicode.IsSpace false rest i in
  r = -1 \/ (i <= r /\ clean_head (skipn (Z.to_nat (r - i)) rest)).
Proof.
  revert rest i. induction fuel as [|fuel IH]; intros rest i; simpl.
  - left. reflexivity.
  - destruct rest as [|c t]; [left; reflexivity|].
    destruct (utf8.DecodeRuneInString (c :: t)) as [r size] eqn:D.
    destruct (unicode.IsSpace r) eqn:Sp; cbn [Bool.eqb].
    + specialize (IH (skipn size (c :: t)) (i + Z.of_nat size)).
      cbv zeta in IH. destruct IH as [IH | [IH1 IH2]]; [left; exact IH|].
      right. split; [lia|].
      rewrite skipn_skipn in IH2.
      match goal with
      | |- clean_head (skipn ?a _) =>
        match type of IH2 with
        | clean_head (skipn ?b _) => replace a with b by lia
        end
      end.
      exact IH2.
    + right. split; [lia|]. rewrite Z.sub_diag. simpl.
      destruct (strings.asciiSpace (byteval c)) eqn:A; [|reflexivity].
      pose proof (decode_asciiSpace c t A) as H. rewrite D in H.
      simpl in H. congruence.
Qed.

Lemma TrimLeftFunc_clean s :
  clean_head (strings.TrimLeftFunc s unicode.IsSpace).
Proof.
  unfold strings.TrimLeftFunc, strings.indexFunc.
  pose proof (indexFunc_loop_clean (List.length s) s 0) as H. cbv zeta in H.
  destruct (_ =? -1) eqn:E; [exact I|].
  apply Z.eqb_neq in E. destruct H as [H | [_ H]]; [contradiction|].
  rewrite Z.sub_0_r in H. exact H.
Qed.

Lemma TrimRightFunc_firstn s f :
  exists k, strings.TrimRightFunc s f = firstn k s.
Proof. unfold strings.TrimRightFunc. eexists. reflexivity. Qed.

Lemma TrimFunc_clean s : clean_head (strings.TrimFunc s unicode.IsSpace).
Proof.
  unfold strings.TrimFunc.
  destruct (TrimRightFunc_firstn (strings.TrimLeftFunc s unicode.IsSpace)
                                 unicode.IsSpace) as [k ->].
  apply clean_head_firstn. apply TrimLeftFunc_clean.
Qed.

Lemma TrimSpace_stop_firstn r :
  exists k, strings.TrimSpace_stop r = firstn k (rev r).
Proof.
  induction r as [|c t [k IH]].
  - exists 0%nat. reflexivity.
  - cbn [strings.TrimSpace_stop].
    destruct (utf8.RuneSelf <=? byteval c).
    + apply TrimRightFunc_firstn.
    + destruct (strings.asciiSpace (byteval c)).
      * exists (Nat.min k (List.length (rev t))). rewrite IH. cbn [rev].
        rewrite firstn_app.
        replace (Nat.min k (List.length (rev t)) - List.length (rev t))%nat
          with 0%nat by lia.
        cbn [firstn]. rewrite app_nil_r.
        destruct (Nat.le_ge_cases k (List.length (rev t))) as [Hle | Hge].
        -- rewrite Nat.min_l by exact Hle. reflexivity.
        -- rewrite Nat.min_r by exact Hge.
           rewrite firstn_all. apply firstn_all2. exact Hge.
      * exists (List.length (rev (c :: t))). rewrite firstn_all.
        reflexivity.
Qed.

(** A trimmed line does not start with a space or a tab. *)
Lemma TrimSpace_clean s : clean_head (strings.TrimSpace s).
Proof.
  induction s as [|c t IH].
  - exact I.
  - cbn [strings.TrimSpace].
    destruct (utf8.RuneSelf <=? byteval c); [apply TrimFunc_clean|].
    destruct (strings.asciiSpace (byteval c)) eqn:A; [exact IH|].
    destruct (TrimSpace_stop_firstn (rev (c :: t))) as [k ->].
    rewrite rev_involutive. apply clean_head_firstn. exact A.
Qed.

Lemma clean_not_space c :
  strings.asciiSpace (byteval c) = false ->
  Ascii.eqb c " "%char = false /\ Ascii.eqb c tab = false.
Proof.
  intros H. split.
  - destruct (Ascii.eqb c " "%char) eqn:E; [|reflexivity].
    apply Ascii.eqb_eq in E. subst c. discriminate H.
  - destruct (Ascii.eqb c tab) eqn:E; [|reflexivity].
    apply Ascii.eqb_eq in E. subst c. discriminate H.
Qed.

(** The replacer leaves a first byte that is no space and no tab where
    it is. *)
Lemma Replace_head c t :
  strings.asciiSpace (byteval c) = false ->
  exists t', strings.Replace replacer (c :: t) = c :: t'.
Proof.
  intros H. destruct (clean_not_space c H) as [Hs Ht].
  unfold strings.Replace, replacer. cbn [strings.Replace_from strings.lookup].
  change (str "  ") with [" "%char; " "%char].
  cbn [strings.HasPrefix]. rewrite Hs, Ht. cbn [andb].
  eexists. reflexivity.
Qed.

Lemma normalized_head line :
  strings.TrimSpace line <> [] ->
  exists c t, normalized line = c :: t /\ Ascii.eqb c " "%char = false.
Proof.
  intros Hne. unfold normalized.
  pose proof (TrimSpace_clean line) as Hc.
  destruct (strings.TrimSpace line) as [|c t]; [congruence|].
  simpl in Hc. destruct (Replace_head c t Hc) as [t' Ht'].
  exists c, t'. split; [exact Ht'|]. apply clean_not_space. exact Hc.
Qed.

(** ** The tokens of a line and the slice that holds them *)

Lemma genSplit_loop_length_count sep k s :
  Z.of_nat (List.length (strings.genSplit_loop k s sep))
  <= strings.Count s sep + 1.
Proof.
  revert s. induction k as [|k IH]; intros s;
    pose proof (Count_nonneg sep s); cbn [strings.genSplit_loop].
  - cbn [List.length]. lia.
  - destruct (strings.IndexByte s sep <? 0) eqn:E; [cbn [List.length]; lia|].
    apply Z.ltb_ge in E. destruct (IndexByte_present sep s E) as [_ H2].
    cbv zeta in H2. cbn [List.length]. rewrite H2.
    specialize (IH (skipn (Z.to_nat (strings.IndexByte s sep) + 1) s)). lia.
Qed.

Lemma genSplit_loop_length_rounds sep k s :
  (List.length (strings.genSplit_loop k s sep) <= S k)%nat.
Proof.
  revert s. induction k as [|k IH]; intros s; cbn [strings.genSplit_loop].
  - cbn [List.length]. lia.
  - destruct (strings.IndexByte s sep <? 0); cbn [List.length]; [lia|].
    specialize (IH (skipn (Z.to_nat (strings.IndexByte s sep) + 1) s)). lia.
Qed.

Lemma firstn_length_app {A : Type} (l l' : list A) :
  firstn (List.length l) (l ++ l') = l.
Proof.
  rewrite firstn_app, Nat.sub_diag, firstn_all. simpl. apply app_nil_r.
Qed.

(** With six tokens or more the array behind them has seven elements:
    the tokens, and an empty string after the sixth when there is no
    seventh. *)
Lemma SplitN_seven_shape line :
  strings.TrimSpace line <> [] ->
  (6 <= List.length (tokens line))%nat ->
  strings.SplitN (normalized line) " "%char 7
  = mkSlice (tokens line ++ repeat [] (7 - List.length (tokens line)))
            (List.length (tokens line))
  /\ (List.length (tokens line) <= 7)%nat.
Proof.
  intros Hne H6.
  destruct (normalized_head line Hne) as [c [t [Hs Hc]]].
  unfold tokens, elems, strings.SplitN, strings.genSplit in *.
  change (7 =? 0) with false in *. change (7 <? 0) with false in *.
  cbv iota in *. cbn [arr slen] in *.
  rewrite firstn_length_app in *.
  set (s := normalized line) in *.
  assert (Hcount : strings.Count s " "%char + 1 <= len s).
  { rewrite Hs. unfold len. cbn [strings.Count List.length]. rewrite Hc.
    pose proof (Count_le_len " "%char t) as H. unfold len in H. lia. }
  destruct (len s + 1 <? 7) eqn:E.
  - apply Z.ltb_lt in E. exfalso.
    pose proof (genSplit_loop_length_count
                  " "%char (Z.to_nat (len s + 1 - 1)) s) as H.
    lia.
  - pose proof (genSplit_loop_length_rounds
                  " "%char (Z.to_nat (7 - 1)) s) as H.
    change (Z.to_nat (7 - 1)) with 6%nat in *.
    change (Z.to_nat 7) with 7%nat.
    split; [reflexivity | exact H].
Qed.

Section ParserAccepts.

Variable cron_Parse : gostring -> option Err.

(** The parser from six tokens on (what holds of C1).  The schedule is ["0 "] and the first five
    tokens joined by spaces, the command is the sixth token, the
    argument string is the seventh token or empty; the job made of them
    is offered to the scheduler, which registers it unless it refuses
    the schedule. *)
Lemma parseCrontabLine_six_tokens line w t1 t2 t3 t4 t5 t6 more :
  strings.TrimSpace line <> [] ->
  strings.HasPrefix (strings.TrimSpace line) (str "#") = false ->
  tokens line = t1 :: t2 :: t3 :: t4 :: t5 :: t6 :: more ->
  let schedule :=
    str "0 " ++ t1 ++ str " " ++ t2 ++ str " " ++ t3 ++ str " " ++ t4
        ++ str " " ++ t5 in
  let args := match more with [] => [] | t7 :: _ => t7 end in
  let r := createRunnable t6 args schedule in
  let c := cronScheduler w in
  parseCrontabLine cron_Parse line w
  = Ret tt
      match cron_Parse schedule with
      | Some e =>
        mkWorld c (retired w)
                (output w
                 ++ [ELog (mkLog ErrorLevel (Some (contextLogger r)) None
                                 (str "unable to parse schedule" ++ e))])
      | None =>
        mkWorld (mkCron (entries c ++ [mkEntry schedule r]) (running c))
                (retired w)
                (output w
                 ++ [ELog (mkLog InfoLevel (Some (contextLogger r)) None
                                 (str "job created"))])
      end.
Proof.
  intros Hne Hhash Htok.
  assert (H6 : (6 <= List.length (tokens line))%nat)
    by (rewrite Htok; simpl; lia).
  destruct (SplitN_seven_shape line Hne H6) as [Hshape H7].
  unfold parseCrontabLine. cbv zeta.
  replace (len (strings.TrimSpace line) <=? 0) with false.
  2:{ symmetry. apply Z.leb_gt. unfold len.
      destruct (strings.TrimSpace line); [congruence | simpl; lia]. }
  rewrite Hhash. cbn [orb]. cbv iota.
  unfold normalized in Hshape. rewrite Hshape. rewrite Htok in *.
  clear Hshape Htok H6.
  assert (Hmore : more = [] \/ exists t7, more = [t7]).
  { destruct more as [|t7 [|t8 more]]; simpl in H7;
      [left; reflexivity | right; eexists; reflexivity | lia]. }
  destruct Hmore as [-> | [t7 ->]];
    cbn [List.length Nat.sub repeat app];
    lazy -[createRunnable app str];
    destruct (cron_Parse _); reflexivity.
Qed.

End ParserAccepts.

(** ** The properties on the sample inputs *)

(** The line ["* * * * *"] makes the parser panic. *)
Lemma parseCrontabLine_five_tokens_witness :
  parseCrontabLine acceptAll line_five_fields World0
  = Panic IndexOutOfRange World0.
Proof.
  apply parseCrontabLine_five_tokens_panics.
  - vm_compute. discriminate.
  - vm_compute. reflexivity.
  - vm_compute. reflexivity.
Defined.

(** The line ["1 2 3 echo"] is ignored. *)
Lemma parseCrontabLine_ignores_witness :
  parseCrontabLine acceptAll line_four_fields World0 = Ret tt World0.
Proof.
  apply parseCrontabLine_ignores. right. right. vm_compute. lia.
Defined.

(** The two examples of the crontab format. *)
Example parse_curl :
  parseCrontabLine acceptAll line_curl_a World0
  = Ret tt (mkWorld (mkCron [mkEntry (str "0 */5 * * * *") job_curl_a] false)
                    []
                    [ELog (mkLog InfoLevel (Some (contextLogger job_curl_a))
                                 None (str "job created"))]).
Proof. lazy -[createRunnable]. reflexivity. Qed.

Example parse_backup :
  parseCrontabLine acceptAll (str "0 2 * * * /bin/backup.sh --full") World0
  = Ret tt
      (let r := createRunnable (str "/bin/backup.sh") (str "--full")
                               (str "0 0 2 * * *") in
       mkWorld (mkCron [mkEntry (str "0 0 2 * * *") r] false) []
               [ELog (mkLog InfoLevel (Some (contextLogger r)) None
                            (str "job created"))]).
Proof. lazy -[createRunnable]. reflexivity. Qed.

Example reload_two :
  initCron acceptAll crontab_two World0 = Ret tt world_two.
Proof. lazy -[createRunnable]. reflexivity. Qed.

Example id_curl :
  ID job_curl_a = str "5300d17a1d695bd411e4cdf96f9548c23ced6175".
Proof. vm_compute. reflexivity. Qed.

Lemma buffer_cursor_invariant_witness :
  len (buffer (self proc_after_ok)) = logBufferSize
  /\ 0 <= bufferPos (self proc_after_ok) <= logBufferSize.
Proof.
  destruct (Run_stdout_line_buffer_ok (str "ok") proc_fresh
              (createRunnable_buffer_ok _ _ _)) as [p' [H _]].
  unfold proc_after_ok. rewrite H. cbn [state_of].
  apply buffer_cursor_invariant.
  eapply reach_line; [|exact H]. apply reach_create.
Defined.

Example after_ok :
  bufferPos (self proc_after_ok) = 3
  /\ strings.TrimSpace (region (self proc_after_ok)) = str "ok".
Proof. vm_compute. split; reflexivity. Qed.

Lemma overflow_flushes_first_witness :
  flush proc_after_ok
  = Ret tt (mkProc (set_bufferPos 0 (self proc_after_ok))
                   (trace proc_after_ok
                    ++ [flushRecord (self proc_after_ok)
                          (strings.TrimSpace (region (self proc_after_ok)))])).
Proof.
  refine (proj1 (overflow_flushes_first line_full proc_after_ok _ _ _)).
  - split; [vm_compute; reflexivity|].
    split; vm_compute; discriminate.
  - vm_compute. discriminate.
  - vm_compute. reflexivity.
Defined.


Lemma Run_command_not_found_witness :
  Run (str "/bin/ash") (str "/bin/ash") firing_not_found proc_fresh
  = Ret tt (mkProc (self proc_fresh)
                   (trace proc_fresh
                    ++ [errorRecord (self proc_fresh)
                          (str "executable file not found in $PATH")])).
Proof.
  apply (proj1 (Run_command_not_found (str "/bin/ash") (str "/bin/ash")
                  firing_not_found
                  (str "executable file not found in $PATH"))).
  reflexivity.
Defined.

Lemma Run_invocation_witness :
  started (trace (state_of (Run (str "go") (str "/bin/ash") firing_ok
                                proc_fresh)))
  = started (trace proc_fresh)
    ++ [mkCmd (Command (self proc_fresh))
              (Command (self proc_fresh)
               :: splitOn " "%char (Args (self proc_fresh)))].
Proof.
  apply (proj1 (Run_invocation (str "go") (str "/bin/ash") firing_ok
                  proc_fresh eq_refl eq_refl eq_refl)).
  reflexivity.
Defined.

Lemma initCron_idempotent_witness :
  exists w2,
    initCron acceptAll crontab_two world_two = Ret tt w2
    /\ cronScheduler w2 = cronScheduler world_two
    /\ retired w2 = cron_Stop (cronScheduler world_two) :: retired world_two.
Proof.
  apply (proj2 (initCron_idempotent acceptAll crontab_two World0)).
  lazy -[createRunnable]. reflexivity.
Defined.

Lemma Run_start_failure_witness :
  isRunning
    (self (state_of (Run (str "/bin/ash") (str "/bin/ash")
                         firing_start_fails proc_fresh))) = false.
Proof.
  destruct (Run_start_failure (str "/bin/ash") (str "/bin/ash")
              firing_start_fails proc_fresh
              (str "fork/exec: permission denied")
              eq_refl eq_refl eq_refl eq_refl
              (createRunnable_buffer_ok _ _ _))
    as [_ [q1 [q2 [_ [_ [H [Hflag _]]]]]]].
  rewrite H. exact Hflag.
Defined.

(** * Further properties of the code *)

(** ** [flush] and the reading loop *)

(** X1. A second [flush] right after a first one does nothing: the first
    leaves the cursor at zero, so the second writes no record and changes
    nothing. *)
Theorem flush_twice (p : Proc) :
  buffer_ok (self p) ->
  (flush ;;; flush) p = flush p.
Proof.
  intros Hok. pose proof Hok as [Hl Hp].
  rewrite (bind_Ret _ _ _ _ _ (flush_spec p Hok)).
  rewrite (flush_spec p Hok).
  destruct (bufferPos (self p) =? 0) eqn:E.
  - rewrite (flush_spec p Hok), E. reflexivity.
  - rewrite flush_spec.
    + reflexivity.
    + split; cbn [self set_bufferPos buffer bufferPos]; [exact Hl|].
      pose proof logBufferSize_eq. lia.
Qed.

Lemma TrimSpace_blank s : blank s -> strings.TrimSpace s = [].
Proof.
  induction 1 as [|c t Hc Ht IH]; [reflexivity|].
  cbn [strings.TrimSpace].
  pose proof (asciiSpace_inv _ Hc) as Hb.
  replace (utf8.RuneSelf <=? byteval c) with false
    by (symmetry; apply Z.leb_gt; unfold utf8.RuneSelf; lia).
  rewrite Hc. exact IH.
Qed.

(** X2. When the buffer holds white space only (the newlines of empty
    lines, say), [flush] still writes a record, with an empty output. *)
Theorem flush_blank_content (p : Proc) :
  buffer_ok (self p) ->
  0 < bufferPos (self p) ->
  blank (region (self p)) ->
  flush p = Ret tt (mkProc (set_bufferPos 0 (self p))
                           (trace p ++ [flushRecord (self p) []])).
Proof.
  intros Hok Hpos Hblank. rewrite (flush_spec p Hok).
  replace (bufferPos (self p) =? 0) with false
    by (symmetry; apply Z.eqb_neq; lia).
  rewrite (TrimSpace_blank _ Hblank). reflexivity.
Qed.

Lemma flush_blank_content_witness :
  flush proc_after_empty
  = Ret tt (mkProc (set_bufferPos 0 (self proc_after_empty))
                   (trace proc_after_empty
                    ++ [flushRecord (self proc_after_empty) []])).
Proof.
  apply flush_blank_content.
  - split; [vm_compute; reflexivity|].
    split; vm_compute; discriminate.
  - vm_compute. reflexivity.
  - vm_compute. repeat constructor.
Defined.

Lemma region_appended message r :
  0 <= bufferPos r <= len (buffer r) ->
  region (appended message r) = region r ++ message.
Proof.
  intros H. unfold region, appended. cbn [buffer bufferPos].
  unfold len in *.
  replace (Z.to_nat (bufferPos r + Z.of_nat (List.length message)))
    with (List.length (firstn (Z.to_nat (bufferPos r)) (buffer r) ++ message)
          + 0)%nat
    by (rewrite length_app, length_firstn; lia).
  rewrite app_assoc, firstn_app_2. cbn [firstn]. apply app_nil_r.
Qed.

(** Lines that fit in the room left are stored one after the other and
    nothing is flushed. *)
Lemma stdout_lines_accumulate texts p :
  buffer_ok (self p) ->
  bufferPos (self p) + len (messages texts) <= logBufferSize ->
  exists p',
    forEach (map Line texts) (onEvent Run_stdout_line) p = Ret tt p'
    /\ trace p' = trace p
    /\ buffer_ok (self p')
    /\ bufferPos (self p') = bufferPos (self p) + len (messages texts)
    /\ region (self p') = region (self p) ++ messages texts
    /\ isRunning (self p') = isRunning (self p).
Proof.
  revert p. induction texts as [|text texts IH]; intros p Hok Hfit.
  - exists p. cbn [map forEach messages flat_map].
    rewrite app_nil_r. unfold len. cbn [List.length].
    repeat split; try reflexivity; try exact Hok; try apply Hok. lia.
  - pose proof Hok as [Hl Hp].
    cbn [messages flat_map] in Hfit. fold (messages texts) in Hfit.
    rewrite len_app in Hfit.
    pose proof (len_message text) as Hm.
    pose proof (len_nonneg (messages texts)) as Hn.
    pose proof (len_nonneg text) as Ht.
    set (q := mkProc (appended (text ++ [newline]) (self p)) (trace p)).
    assert (Hq : Run_stdout_line text p = Ret tt q)
      by (apply Run_stdout_line_direct; [exact Hok | lia]).
    assert (Hokq : buffer_ok (self q))
      by (apply appended_buffer_ok; [exact Hok | lia]).
    destruct (IH q Hokq) as [p' [H1 [H2 [H3 [H4 [H5 H6]]]]]].
    { cbn [q self appended bufferPos]. lia. }
    exists p'. cbn [map forEach]. cbn [onEvent].
    rewrite (bind_Ret _ _ _ _ _ Hq).
    split; [exact H1|]. split; [exact H2|]. split; [exact H3|].
    cbn [q self appended bufferPos] in H4.
    split; [cbn [messages flat_map]; fold (messages texts);
            rewrite len_app; lia|].
    split; [|exact H6].
    rewrite H5. cbn [q self]. rewrite region_appended by lia.
    cbn [messages flat_map]. fold (messages texts).
    rewrite <- app_assoc. reflexivity.
Qed.

(** ** More on [Run] *)

Lemma same_job_refl r : same_job r r.
Proof. unfold same_job. repeat split. Qed.

Lemma copy_at_length b pos src b' :
  copy_at b pos src = Some b' -> List.length b' = List.length b.
Proof.
  unfold copy_at. destruct (_ && _) eqn:E; [|discriminate].
  apply andb_true_iff in E. destruct E as [E1 E2].
  apply Z.leb_le in E1, E2. unfold len in E2.
  intros H. injection H as <-.
  rewrite !length_app, !length_firstn, length_skipn. lia.
Qed.

Section SameJob.

Variable r0 : Runnable.

Let J (q : Proc) : Prop := same_job r0 (self q).

Lemma emit_same_job e : preserves J (emit e).
Proof. apply preserves_modify. intros s H. exact H. Qed.

Lemma ctxLog_same_job lvl field msg : preserves J (ctxLog lvl field msg).
Proof.
  apply preserves_bind; [apply preserves_gets|].
  intros r. apply emit_same_job.
Qed.

Lemma set_flag_same_job v : preserves J (update (set_isRunning v)).
Proof. apply preserves_modify. intros s H. exact H. Qed.

Lemma flush_same_job : preserves J flush.
Proof.
  apply preserves_bind; [apply preserves_gets|].
  intros r. destruct (_ =? _); [apply preserves_ret|].
  apply preserves_bind; [apply preserves_checked|].
  intros b. cbv zeta. apply preserves_bind.
  - apply preserves_modify. intros s H. exact H.
  - intros _. apply ctxLog_same_job.
Qed.

Lemma Run_stdout_line_same_job text : preserves J (Run_stdout_line text).
Proof.
  unfold Run_stdout_line. cbv zeta.
  destruct (_ <? _); [apply ctxLog_same_job|].
  apply preserves_bind; [apply preserves_gets|].
  intros r. apply preserves_bind.
  { destruct (_ <? _); [apply flush_same_job | apply preserves_ret]. }
  intros _ s Hs. unfold bind at 1. unfold gets at 1.
  destruct (copy_at (buffer (self s)) (bufferPos (self s))
                    (text ++ [newline])) as [b|] eqn:C.
  - cbn. unfold J, same_job in *. cbn [self set_bufferPos set_buffer
      ID Command Args Schedule contextLogger buffer].
    rewrite (copy_at_length _ _ _ _ C). exact Hs.
  - cbn. exact Hs.
Qed.

Lemma logErr_same_job e : preserves J (logErr e).
Proof. destruct e; [apply ctxLog_same_job | apply preserves_ret]. Qed.

Lemma Run_after_start_same_job w cmd : preserves J (Run_after_start w cmd).
Proof.
  unfold Run_after_start.
  apply preserves_bind.
  { apply preserves_forEach. intros [text|]; simpl;
      [apply Run_stdout_line_same_job | apply flush_same_job]. }
  intros _. apply preserves_bind; [apply logErr_same_job|].
  intros _. apply preserves_bind.
  { apply preserves_forEach. intros [text|]; simpl;
      [apply ctxLog_same_job | apply flush_same_job]. }
  intros _. apply preserves_bind; [apply logErr_same_job|].
  intros _. apply preserves_bind; [apply emit_same_job|].
  intros _. apply preserves_bind; [apply logErr_same_job|].
  intros _. apply set_flag_same_job.
Qed.

End SameJob.

Section RunMore.

Variable executer : gostring.
Variable SHELL : gostring.

(** X4. However [Run] ends (return, fatal exit or panic), and from any
    state, the job keeps its identity, command, arguments, schedule and
    logger fields, and its buffer keeps its size: [Run] only ever changes
    the buffer content, the cursor and the flag. *)
Theorem Run_keeps_the_job (w : Firing) (p : Proc) :
  same_job (self p) (self (state_of (Run executer SHELL w p))).
Proof.
  unfold Run. unfold bind at 1. unfold gets at 1.
  destruct (lookPathErr w (Command (self p))).
  { cbn. apply same_job_refl. }
  cbv zeta.
  destruct (stdoutPipeErr w); [cbn; apply same_job_refl|].
  destruct (stderrPipeErr w); [cbn; apply same_job_refl|].
  pose proof (Run_started executer SHELL w p) as Hs.
  apply (preserves_bind (fun q => same_job (self p) (self q))).
  - apply set_flag_same_job.
  - intros _. apply preserves_bind; [apply emit_same_job|].
    intros _. apply preserves_bind; [apply emit_same_job|].
    intros _. apply preserves_bind; [apply logErr_same_job|].
    intros _. apply (Run_after_start_same_job (self p) w
                       (Run_command executer SHELL (self p))).
  - apply same_job_refl.
Qed.

(** From a sound buffer the rest of [Run] returns, with the flag cleared
    and a sound buffer. *)
Lemma Run_after_start_sound w cmd q :
  buffer_ok (self q) ->
  exists p', Run_after_start w cmd q = Ret tt p'
             /\ isRunning (self p') = false
             /\ buffer_ok (self p').
Proof.
  intros Hok.
  destruct (stdout_loop_buffer_ok (events (stdout w)) q Hok)
    as [q1 [H1 Hok1]].
  assert (Hok1' : buffer_ok (self (withErr (scanErr (stdout w)) q1)))
    by (rewrite withErr_self; exact Hok1).
  destruct (stderr_loop_buffer_ok (events (stderr w)) _ Hok1')
    as [q2 [H2 Hok2]].
  exists (at_end w cmd q2). split; [|split].
  - unfold Run_after_start.
    rewrite (bind_Ret _ _ _ _ _ H1).
    rewrite (bind_Ret _ _ _ _ _ (logErr_spec _ _)).
    rewrite (bind_Ret _ _ _ _ _ H2).
    rewrite (bind_Ret _ _ _ _ _ (logErr_spec _ _)).
    mstep. unfold emit at 1, modify at 1. cbv beta iota.
    rewrite (bind_Ret _ _ _ _ _ (logErr_spec _ _)).
    reflexivity.
  - reflexivity.
  - unfold at_end. cbn [self]. rewrite withErr_self. cbn [self].
    rewrite withErr_self. exact Hok2.
Qed.

Lemma Run_returns_idle_aux (w : Firing) (p : Proc) :
  buffer_ok (self p) ->
  lookPathErr w (Command (self p)) = None ->
  stdoutPipeErr w = None ->
  stderrPipeErr w = None ->
  exists p',
    Run executer SHELL w p = Ret tt p'
    /\ isRunning (self p') = false
    /\ buffer_ok (self p').
Proof.
  intros Hok HL H1 H2. rewrite Run_started by assumption.
  apply Run_after_start_sound.
  unfold at_start. rewrite withErr_self. exact Hok.
Qed.

(** X6. [Run] on a sound buffer never panics, and it ends the process
    only when the command was found and a pipe could not be obtained: then
    the job is as it was, the flag included, and no process was started. *)
Theorem Run_never_panics (w : Firing) (p : Proc) :
  buffer_ok (self p) ->
  match Run executer SHELL w p with
  | Ret _ _ => True
  | Panic _ _ => False
  | Exit p' =>
    lookPathErr w (Command (self p)) = None
    /\ (stdoutPipeErr w <> None \/ stderrPipeErr w <> None)
    /\ self p' = self p
    /\ started (trace p') = started (trace p)
  end.
Proof.
  intros Hok.
  destruct (lookPathErr w (Command (self p))) as [err|] eqn:HL.
  { unfold Run. mstep. unfold gets at 1. rewrite HL. exact I. }
  destruct (stdoutPipeErr w) as [err|] eqn:H1.
  { unfold Run. mstep. unfold gets at 1. rewrite HL, H1. cbn.
    split; [reflexivity|]. split; [left; discriminate|].
    split; [reflexivity|]. unfold started. rewrite flat_map_app. simpl.
    apply app_nil_r. }
  destruct (stderrPipeErr w) as [err|] eqn:H2.
  { unfold Run. mstep. unfold gets at 1. rewrite HL, H1, H2. cbn.
    split; [reflexivity|]. split; [right; discriminate|].
    split; [reflexivity|]. unfold started. rewrite flat_map_app. simpl.
    apply app_nil_r. }
  destruct (Run_returns_idle_aux w p Hok HL H1 H2) as [p' [H _]].
  rewrite H. exact I.
Qed.

End RunMore.

(** ** What [Run] logs and what it leaves in the buffer *)

Lemma warnings_app tr1 tr2 :
  warnings (tr1 ++ tr2) = warnings tr1 ++ warnings tr2.
Proof. apply flat_map_app. Qed.

Lemma warnings_withErr e q :
  warnings (trace (withErr e q)) = warnings (trace q).
Proof.
  destruct e; cbn [withErr trace]; [|reflexivity].
  rewrite warnings_app. apply app_nil_r.
Qed.

Lemma flushOutputs_withErr e q :
  flushOutputs (trace (withErr e q)) = flushOutputs (trace q).
Proof.
  destruct e; cbn [withErr trace]; [|reflexivity].
  rewrite flushOutputs_app. apply app_nil_r.
Qed.

Section Quiet.

Variable X : list gostring.

Let W (q : Proc) : Prop := warnings (trace q) = X.

Lemma emit_quiet e : warned e = [] -> preserves W (emit e).
Proof.
  intros He. apply preserves_modify. intros s H. unfold W in *. simpl.
  rewrite warnings_app, H. simpl. rewrite He. apply app_nil_r.
Qed.

Lemma update_quiet f : preserves W (update f).
Proof. apply preserves_modify. intros s H. exact H. Qed.

Lemma ctxLog_quiet lvl field msg :
  lvl <> WarnLevel -> preserves W (ctxLog lvl field msg).
Proof.
  intros Hl. apply preserves_bind; [apply preserves_gets|].
  intros r. apply emit_quiet. destruct lvl; try reflexivity. congruence.
Qed.

Lemma flush_quiet : preserves W flush.
Proof.
  apply preserves_bind; [apply preserves_gets|].
  intros r. destruct (_ =? _); [apply preserves_ret|].
  apply preserves_bind; [apply preserves_checked|].
  intros b. cbv zeta. apply preserves_bind; [apply update_quiet|].
  intros _. apply ctxLog_quiet. discriminate.
Qed.

Lemma Run_stdout_line_quiet text : preserves W (Run_stdout_line text).
Proof.
  unfold Run_stdout_line. cbv zeta.
  destruct (_ <? _); [apply ctxLog_quiet; discriminate|].
  apply preserves_bind; [apply preserves_gets|].
  intros r. apply preserves_bind.
  { destruct (_ <? _); [apply flush_quiet | apply preserves_ret]. }
  intros _. apply preserves_bind; [apply preserves_gets|].
  intros r'. apply preserves_bind; [apply preserves_checked|].
  intros b. apply preserves_bind; [apply update_quiet|].
  intros _. apply update_quiet.
Qed.

Lemma stdout_loop_quiet evs :
  preserves W (forEach evs (onEvent Run_stdout_line)).
Proof.
  apply preserves_forEach. intros [text|]; simpl;
    [apply Run_stdout_line_quiet | apply flush_quiet].
Qed.

End Quiet.

(** The second loop writes one warning per line, in order. *)
Lemma stderr_loop_warnings evs p :
  buffer_ok (self p) ->
  exists p',
    forEach evs (onEvent Run_stderr_line) p = Ret tt p'
    /\ warnings (trace p') = warnings (trace p) ++ lineTexts evs.
Proof.
  revert p. induction evs as [|e evs IH]; intros p Hok.
  - exists p. split; [reflexivity|]. cbn. symmetry. apply app_nil_r.
  - assert (Hstep : exists q, onEvent Run_stderr_line e p = Ret tt q
                              /\ buffer_ok (self q)
                              /\ warnings (trace q)
                                 = warnings (trace p) ++ lineText e).
    { destruct e as [text|]; cbn [onEvent lineText].
      - eexists. split; [reflexivity|]. split; [exact Hok|].
        cbn [trace self]. rewrite warnings_app. reflexivity.
      - destruct (flush_buffer_ok p Hok) as [q [Hq Hokq]].
        exists q. split; [exact Hq|]. split; [exact Hokq|].
        pose proof (flush_quiet (warnings (trace p)) p eq_refl) as Hw.
        rewrite Hq in Hw. cbn [state_of] in Hw. rewrite Hw.
        symmetry. apply app_nil_r. }
    destruct Hstep as [q [Hq [Hokq Hwq]]].
    destruct (IH q Hokq) as [p' [Hp' Hw']].
    exists p'. split.
    + cbn [forEach]. rewrite (bind_Ret _ _ _ _ _ Hq). exact Hp'.
    + rewrite Hw', Hwq. unfold lineTexts. cbn [flat_map].
      rewrite <- app_assoc. reflexivity.
Qed.

(** Lines of standard error with no flush in between: one warning each,
    the job untouched. *)
Lemma stderr_lines_only texts q :
  forEach (map Line texts) (onEvent Run_stderr_line) q
  = Ret tt (mkProc (self q) (trace q ++ map (warnRecord (self q)) texts)).
Proof.
  revert q. induction texts as [|t texts IH]; intros [r tr].
  - cbn. rewrite app_nil_r. reflexivity.
  - cbn [map forEach onEvent].
    rewrite (bind_Ret _ _ _ tt
               (mkProc r (tr ++ [warnRecord r t]))) by reflexivity.
    rewrite IH. cbn [self trace]. rewrite <- app_assoc. reflexivity.
Qed.

Lemma flushOutputs_warnings r texts :
  flushOutputs (map (warnRecord r) texts) = [].
Proof. induction texts as [|t texts IH]; [reflexivity | exact IH]. Qed.

Section RunOutput.

Variable executer : gostring.
Variable SHELL : gostring.

(** X7. A run that gets its pipes logs one warning per line of standard
    error, in the order of the lines, and no other warning: the warnings
    of the trace grow by exactly the lines of standard error. *)
Theorem Run_warns_each_stderr_line (w : Firing) (p : Proc) :
  buffer_ok (self p) ->
  lookPathErr w (Command (self p)) = None ->
  stdoutPipeErr w = None ->
  stderrPipeErr w = None ->
  warnings (trace (state_of (Run executer SHELL w p)))
  = warnings (trace p) ++ lineTexts (events (stderr w)).
Proof.
  intros Hok HL H1 H2. rewrite Run_started by assumption.
  set (cmd := Run_command executer SHELL (self p)).
  set (q0 := at_start cmd (startErr w) p).
  assert (Hok0 : buffer_ok (self q0))
    by (unfold q0, at_start; rewrite withErr_self; exact Hok).
  assert (Hw0 : warnings (trace q0) = warnings (trace p)).
  { unfold q0, at_start. rewrite warnings_withErr. cbn [trace].
    rewrite warnings_app. apply app_nil_r. }
  destruct (Run_after_start_spec w cmd q0 Hok0) as [q1 [q2 [A [B C]]]].
  rewrite C. cbn [state_of].
  pose proof (stdout_loop_quiet (warnings (trace q0))
                (events (stdout w)) q0 eq_refl) as Hw1.
  rewrite A in Hw1. cbn [state_of] in Hw1.
  destruct (stdout_loop_buffer_ok (events (stdout w)) q0 Hok0)
    as [q1' [A' Hok1]].
  rewrite A in A'. injection A' as <-.
  assert (Hok1' : buffer_ok (self (withErr (scanErr (stdout w)) q1)))
    by (rewrite withErr_self; exact Hok1).
  destruct (stderr_loop_warnings (events (stderr w)) _ Hok1')
    as [q2' [B' Hw2]].
  rewrite B in B'. injection B' as <-.
  rewrite warnings_withErr in Hw2.
  unfold at_end. cbn [trace].
  rewrite warnings_withErr. cbn [trace].
  rewrite warnings_app, warnings_withErr. cbn [warnings flat_map warned].
  rewrite app_nil_r, Hw2, Hw1, Hw0. reflexivity.
Qed.

(** X8. There is no flush at the end of [Run].  When the periodic flusher
    does not fire during the run and the lines of standard output fit in
    the room left, [Run] returns with no flush record written and with the
    whole output still in the buffer, after what was there before. *)
Theorem Run_leaves_output_in_buffer (w : Firing) (p : Proc)
        (texts etexts : list gostring) :
  buffer_ok (self p) ->
  lookPathErr w (Command (self p)) = None ->
  stdoutPipeErr w = None ->
  stderrPipeErr w = None ->
  events (stdout w) = map Line texts ->
  events (stderr w) = map Line etexts ->
  bufferPos (self p) + len (messages texts) <= logBufferSize ->
  exists p',
    Run executer SHELL w p = Ret tt p'
    /\ flushOutputs (trace p') = flushOutputs (trace p)
    /\ region (self p') = region (self p) ++ messages texts
    /\ bufferPos (self p') = bufferPos (self p) + len (messages texts).
Proof.
  intros Hok HL H1 H2 Hout Herr Hfit. rewrite Run_started by assumption.
  set (cmd := Run_command executer SHELL (self p)).
  set (q0 := at_start cmd (startErr w) p).
  assert (Hs0 : self q0 = set_isRunning true (self p))
    by (unfold q0, at_start; rewrite withErr_self; reflexivity).
  assert (Hok0 : buffer_ok (self q0)) by (rewrite Hs0; exact Hok).
  assert (Hf0 : flushOutputs (trace q0) = flushOutputs (trace p)).
  { unfold q0, at_start. rewrite flushOutputs_withErr. cbn [trace].
    rewrite flushOutputs_app. apply app_nil_r. }
  destruct (Run_after_start_spec w cmd q0 Hok0) as [q1 [q2 [A [B C]]]].
  rewrite C. eexists. split; [reflexivity|].
  destruct (stdout_lines_accumulate texts q0 Hok0)
    as [q1' [A' [Ht [_ [Hpos [Hreg _]]]]]].
  { rewrite Hs0. exact Hfit. }
  rewrite Hout in A. rewrite A in A'. injection A' as <-.
  rewrite Herr, stderr_lines_only in B. injection B as <-.
  unfold at_end. cbn [self trace]. rewrite ?withErr_self. cbn [self].
  rewrite ?withErr_self.
  split; [|split].
  - rewrite flushOutputs_withErr. cbn [trace].
    rewrite flushOutputs_app, flushOutputs_withErr. cbn [trace].
    rewrite flushOutputs_app, flushOutputs_warnings,
      flushOutputs_withErr, Ht, Hf0.
    cbn. rewrite !app_nil_r. reflexivity.
  - change (region (set_isRunning false (self q1))) with (region (self q1)).
    rewrite Hreg, Hs0. reflexivity.
  - change (bufferPos (set_isRunning false (self q1)))
      with (bufferPos (self q1)).
    rewrite Hpos, Hs0. reflexivity.
Qed.

End RunOutput.


Lemma Run_never_panics_witness :
  match Run (str "go") (str "/bin/ash") firing_ok proc_fresh with
  | Ret _ _ => True
  | Panic _ _ => False
  | Exit p' =>
    lookPathErr firing_ok (Command (self proc_fresh)) = None
    /\ (stdoutPipeErr firing_ok <> None \/ stderrPipeErr firing_ok <> None)
    /\ self p' = self proc_fresh
    /\ started (trace p') = started (trace proc_fresh)
  end.
Proof.
  apply Run_never_panics. apply createRunnable_buffer_ok.
Defined.

Lemma Run_warns_each_stderr_line_witness :
  warnings (trace (state_of (Run (str "go") (str "/bin/ash") firing_lines
                                 proc_fresh)))
  = warnings (trace proc_fresh) ++ lineTexts (events (stderr firing_lines)).
Proof.
  apply Run_warns_each_stderr_line.
  - apply createRunnable_buffer_ok.
  - reflexivity.
  - reflexivity.
  - reflexivity.
Defined.

Lemma Run_leaves_output_in_buffer_witness :
  exists p',
    Run (str "go") (str "/bin/ash") firing_lines proc_fresh = Ret tt p'
    /\ flushOutputs (trace p') = flushOutputs (trace proc_fresh)
    /\ region (self p')
       = region (self proc_fresh) ++ messages [str "ok"; str "done"]
    /\ bufferPos (self p')
       = bufferPos (self proc_fresh) + len (messages [str "ok"; str "done"]).
Proof.
  apply (Run_leaves_output_in_buffer (str "go") (str "/bin/ash") firing_lines
           proc_fresh [str "ok"; str "done"] [str "careful"]).
  - apply createRunnable_buffer_ok.
  - reflexivity.
  - reflexivity.
  - reflexivity.
  - reflexivity.
  - reflexivity.
  - vm_compute. discriminate.
Defined.

(** ** The identity of a job *)

Lemma be_bytes_length n x : List.length (sha1.be_bytes n x) = n.
Proof.
  revert x. induction n as [|n IH]; intros x; cbn [sha1.be_bytes].
  - reflexivity.
  - rewrite length_app, IH. simpl. lia.
Qed.

Lemma sha1_Sum_length data : List.length (sha1.Sum data) = 20%nat.
Proof.
  unfold sha1.Sum.
  destruct (sha1.blocks _ _ _) as [[[[h0 h1] h2] h3] h4].
  rewrite length_map, !length_app, !be_bytes_length. reflexivity.
Qed.

Lemma byteval_range c : 0 <= byteval c < 256.
Proof.
  unfold byteval. pose proof (N_ascii_bounded c) as H. lia.
Qed.

Lemma EncodeToString_length src :
  List.length (hex.EncodeToString src) = (2 * List.length src)%nat.
Proof.
  induction src as [|c t IH]; cbn [hex.EncodeToString List.length];
    [reflexivity | lia].
Qed.

Lemma hextable_nth i : 0 <= i < 16 -> hexdigit (nth (Z.to_nat i) hex.hextable zero).
Proof.
  intros H. apply nth_In.
  change (List.length hex.hextable) with 16%nat. lia.
Qed.

Lemma EncodeToString_hexdigits src :
  Forall hexdigit (hex.EncodeToString src).
Proof.
  induction src as [|c t IH]; cbn [hex.EncodeToString]; [constructor|].
  pose proof (byteval_range c) as Hc.
  constructor; [|constructor; [|exact IH]].
  - apply hextable_nth. rewrite Z.shiftr_div_pow2 by lia.
    change (2 ^ 4) with 16. split.
    + apply Z.div_pos; lia.
    + apply Z.div_lt_upper_bound; lia.
  - apply hextable_nth. change 15 with (Z.ones 4).
    rewrite Z.land_ones by lia. change (2 ^ 4) with 16.
    apply Z.mod_pos_bound. lia.
Qed.

(** X9. The identity of a job is always 40 lower-case hexadecimal digits,
    whatever the command (empty, or longer than a SHA-1 block): the digest
    has 20 bytes and each gives two digits. *)
Theorem createRunnable_ID_format (command args schedule : gostring) :
  List.length (ID (createRunnable command args schedule)) = 40%nat
  /\ Forall hexdigit (ID (createRunnable command args schedule)).
Proof.
  cbn [createRunnable ID]. split.
  - rewrite EncodeToString_length, sha1_Sum_length. reflexivity.
  - apply EncodeToString_hexdigits.
Qed.

(** ** The parser, line by line *)

Lemma job_of_tokens_short toks :
  (List.length toks < 6)%nat -> job_of_tokens toks = None.
Proof.
  intros H.
  destruct toks as [|t1 [|t2 [|t3 [|t4 [|t5 [|t6 more]]]]]];
    try reflexivity.
  simpl in H. lia.
Qed.

Lemma HasPrefix_nil s : strings.HasPrefix s [] = true.
Proof. destruct s; reflexivity. Qed.

Lemma HasPrefix_app p s : strings.HasPrefix (p ++ s) p = true.
Proof.
  induction p as [|c p IH]; [apply HasPrefix_nil|].
  cbn [app strings.HasPrefix]. rewrite Ascii.eqb_refl. exact IH.
Qed.

Lemma ignored_false line :
  ignored line = false ->
  strings.TrimSpace line <> []
  /\ strings.HasPrefix (strings.TrimSpace line) (str "#") = false.
Proof.
  unfold ignored. intros E. apply orb_false_iff in E.
  destruct E as [E1 E2]. split; [|exact E2].
  intros H. rewrite H in E1. discriminate.
Qed.

Section ParserCharacterized.

Variable cron_Parse : gostring -> option Err.

Lemma parse_short_aux line w :
  ignored line = false ->
  (List.length (tokens line) < 5)%nat ->
  parseCrontabLine cron_Parse line w = Ret tt w.
Proof.
  intros E H. unfold parseCrontabLine. unfold ignored in E. rewrite E.
  rewrite tokens_length in H. unfold normalized in H.
  apply Nat.ltb_lt in H. rewrite H. reflexivity.
Qed.

Lemma parse_five_aux line w :
  ignored line = false ->
  List.length (tokens line) = 5%nat ->
  parseCrontabLine cron_Parse line w = Panic IndexOutOfRange w.
Proof.
  intros E Hlen. unfold parseCrontabLine. unfold ignored in E. rewrite E.
  rewrite tokens_length in Hlen. unfold normalized in Hlen.
  set (sub := strings.SplitN _ _ _) in *.
  rewrite Hlen. simpl Nat.ltb. simpl Nat.leb. cbv iota.
  assert (Hcap : (slen sub <= cap sub)%nat)
    by apply genSplit_slen_le_cap.
  assert (Hidx : index sub 5 = None)
    by (rewrite <- Hlen; apply index_at_len).
  unfold bind at 1, ret at 1. cbv beta iota.
  unfold bind at 1. rewrite (reslice_front sub 5) by lia.
  unfold checked at 1, ret at 1. cbv beta iota zeta.
  unfold bind at 1. rewrite Hidx.
  reflexivity.
Qed.

Lemma parse_characterized_aux line w :
  parseCrontabLine cron_Parse line w
  = if crashes line then Panic IndexOutOfRange w
    else Ret tt match line_job line with
                | Some r => offer cron_Parse w r
                | None => w
                end.
Proof.
  unfold crashes, line_job.
  destruct (ignored line) eqn:E.
  - cbn [negb andb]. unfold parseCrontabLine. unfold ignored in E.
    rewrite E. reflexivity.
  - cbn [negb andb]. destruct (ignored_false line E) as [Hne Hhash].
    destruct (Nat.lt_trichotomy (List.length (tokens line)) 5)
      as [Hlt | [Heq | Hgt]].
    + rewrite parse_short_aux by assumption.
      replace (List.length (tokens line) =? 5)%nat with false
        by (symmetry; apply Nat.eqb_neq; lia).
      rewrite job_of_tokens_short by lia. reflexivity.
    + rewrite parse_five_aux by assumption.
      rewrite Heq. reflexivity.
    + replace (List.length (tokens line) =? 5)%nat with false
        by (symmetry; apply Nat.eqb_neq; lia).
      destruct (tokens line)
        as [|t1 [|t2 [|t3 [|t4 [|t5 [|t6 more]]]]]] eqn:Htok;
        simpl in Hgt; try lia.
      rewrite (parseCrontabLine_six_tokens cron_Parse line w
                 t1 t2 t3 t4 t5 t6 more Hne Hhash Htok).
      reflexivity.
Qed.

(** X10. What [parseCrontabLine] does, for every line: a line with exactly
    five tokens that is no comment makes it panic, in the process as it
    was; on every other line it returns, having offered to the scheduler
    the job of the line (six tokens or more: schedule of the first five
    after a ["0 "], command the sixth, arguments the seventh or empty) or
    having done nothing (empty line, comment, fewer than five tokens).
    It never ends the process otherwise. *)
Theorem parseCrontabLine_characterized (line : gostring) (w : World) :
  parseCrontabLine cron_Parse line w
  = if crashes line then Panic IndexOutOfRange w
    else Ret tt match line_job line with
                | Some r => offer cron_Parse w r
                | None => w
                end.
Proof. apply parse_characterized_aux. Qed.

Lemma line_job_fresh line r :
  line_job line = Some r -> fresh_entry (mkEntry (Schedule r) r).
Proof.
  unfold line_job. destruct (ignored line); [discriminate|].
  destruct (tokens line) as [|t1 [|t2 [|t3 [|t4 [|t5 [|t6 more]]]]]];
    try discriminate.
  cbn [job_of_tokens]. intros H. injection H as <-.
  unfold fresh_entry. cbn [Spec Job]. split; [reflexivity|].
  split; [cbn [createRunnable Schedule]; unfold schedule_of;
          apply HasPrefix_app|].
  split; [reflexivity|]. split; [reflexivity|].
  split; [reflexivity|]. split; [reflexivity|].
  apply createRunnable_buffer_ok.
Qed.

Lemma line_entries_spec line :
  (List.length (line_entries cron_Parse line) <= 1)%nat
  /\ Forall (fun e => fresh_entry e /\ cron_Parse (Spec e) = None)
            (line_entries cron_Parse line).
Proof.
  unfold line_entries. destruct (line_job line) as [r|] eqn:J.
  - destruct (cron_Parse (Schedule r)) eqn:P; simpl.
    + split; [lia | constructor].
    + split; [lia|]. constructor; [|constructor].
      split; [exact (line_job_fresh line r J) | exact P].
  - simpl. split; [lia | constructor].
Qed.

Lemma parse_entries_aux line w :
  let w' := state_of (parseCrontabLine cron_Parse line w) in
  entries (cronScheduler w')
  = entries (cronScheduler w) ++ line_entries cron_Parse line
  /\ running (cronScheduler w') = running (cronScheduler w)
  /\ retired w' = retired w.
Proof.
  cbv zeta. rewrite parse_characterized_aux. unfold line_entries.
  destruct (crashes line) eqn:C.
  - cbn [state_of]. unfold crashes in C. apply andb_true_iff in C.
    destruct C as [C1 C2]. apply Nat.eqb_eq in C2.
    unfold line_job. destruct (ignored line); [discriminate|].
    rewrite job_of_tokens_short by lia.
    rewrite app_nil_r. auto.
  - cbn [state_of]. destruct (line_job line) as [r|].
    + unfold offer. destruct (cron_Parse (Schedule r));
        cbn [cronScheduler retired entries running];
        rewrite ?app_nil_r; auto.
    + rewrite app_nil_r. auto.
Qed.

(** X11. A line adds at most one entry to the scheduler, after those that
    are there, which it leaves as they are, in order; it neither starts
    nor stops the scheduler.  An entry it adds has a schedule that
    [cron.Parse] accepts and holds a fresh job: registered under its own
    six-field schedule, idle, cursor at zero, buffer of full size. *)
Theorem parseCrontabLine_appends (line : gostring) (w : World) :
  let w' := state_of (parseCrontabLine cron_Parse line w) in
  exists added,
    entries (cronScheduler w') = entries (cronScheduler w) ++ added
    /\ (List.length added <= 1)%nat
    /\ Forall (fun e => fresh_entry e /\ cron_Parse (Spec e) = None) added
    /\ running (cronScheduler w') = running (cronScheduler w)
    /\ retired w' = retired w.
Proof.
  cbv zeta. exists (line_entries cron_Parse line).
  destruct (parse_entries_aux line w) as [H1 [H2 H3]].
  destruct (line_entries_spec line) as [H4 H5].
  auto.
Qed.

End ParserCharacterized.

(** ** The reload, line by line *)

Section ReloadCharacterized.

Variable cron_Parse : gostring -> option Err.

Lemma forEach_parse_returns lines w :
  Forall (fun l => crashes l = false) lines ->
  exists w',
    forEach lines (parseCrontabLine cron_Parse) w = Ret tt w'
    /\ entries (cronScheduler w')
       = entries (cronScheduler w) ++ crontab_entries cron_Parse lines
    /\ running (cronScheduler w') = running (cronScheduler w)
    /\ retired w' = retired w.
Proof.
  intros H. revert w. induction H as [|l lines Hl _ IH]; intros w.
  - exists w. cbn. rewrite app_nil_r. auto.
  - pose proof (parse_entries_aux cron_Parse l w) as Hs. cbv zeta in Hs.
    pose proof (parse_characterized_aux cron_Parse l w) as Hc.
    rewrite Hl in Hc. rewrite Hc in Hs. cbn [state_of] in Hs.
    destruct Hs as [E1 [E2 E3]].
    destruct (IH (match line_job l with
                  | Some r => offer cron_Parse w r
                  | None => w
                  end)) as [w' [F0 [F1 [F2 F3]]]].
    exists w'. cbn [forEach]. rewrite (bind_Ret _ _ _ _ _ Hc).
    split; [exact F0|]. split; [|split; congruence].
    rewrite F1, E1. unfold crontab_entries. cbn [flat_map].
    rewrite app_assoc. reflexivity.
Qed.

Lemma forEach_parse_crashes lines w :
  Exists (fun l => crashes l = true) lines ->
  exists w',
    forEach lines (parseCrontabLine cron_Parse) w = Panic IndexOutOfRange w'.
Proof.
  intros H. revert w. induction H as [l lines Hl | l lines _ IH]; intros w.
  - exists w. cbn [forEach]. unfold bind.
    rewrite parse_characterized_aux, Hl. reflexivity.
  - cbn [forEach]. unfold bind.
    rewrite parse_characterized_aux.
    destruct (crashes l).
    + exists w. reflexivity.
    + apply IH.
Qed.

Lemma crontab_entries_length lines :
  (List.length (crontab_entries cron_Parse lines) <= List.length lines)%nat.
Proof.
  induction lines as [|l lines IH]; [simpl; lia|].
  unfold crontab_entries in *. cbn [flat_map List.length].
  rewrite length_app.
  pose proof (proj1 (line_entries_spec cron_Parse l)). lia.
Qed.

Lemma cron_runs_same c c' :
  cron_runs c c' ->
  Permutation (entries c') (entries c) /\ running c' = running c.
Proof.
  induction 1 as [c | c c' c'' Hstep _ [IHp IHr]].
  - split; [apply Permutation_refl | reflexivity].
  - destruct Hstep as [c es Hrun Hperm]. cbn [entries running] in *.
    split; [|congruence].
    eapply Permutation_trans; [exact IHp | exact Hperm].
Qed.

(** X12. A reload of a file none of whose lines has exactly five tokens
    returns, and the scheduler it leaves holds, then and after any rounds
    of its loop, the entries of the lines, each line taken by itself, and
    nothing else: the same entries, each as many times, in whatever order
    the loop has put them; at most one entry per line, a refused or
    ignored line giving none without effect on the others.  The scheduler
    is started when the file was read to its end; after a read error it
    holds the entries but is left stopped. *)
Theorem initCron_registers (lines : list gostring) (scanErr : option Err)
        (w : World) :
  Forall (fun l => crashes l = false) lines ->
  exists w',
    initCron cron_Parse (Opened lines scanErr) w = Ret tt w'
    /\ (forall c,
          cron_runs (cronScheduler w') c ->
          Permutation (entries c) (crontab_entries cron_Parse lines)
          /\ running c
             = match scanErr with None => true | Some _ => false end)
    /\ (List.length (entries (cronScheduler w')) <= List.length lines)%nat
    /\ retired w' = cron_Stop (cronScheduler w) :: retired w.
Proof.
  intros H. rewrite initCron_unfold.
  set (w0 := mkWorld cron_New (cron_Stop (cronScheduler w) :: retired w)
                     (output w)).
  destruct (forEach_parse_returns lines w0 H) as [w1 [F0 [F1 [F2 F3]]]].
  rewrite (bind_Ret _ _ _ _ _ F0).
  cbn [w0 cronScheduler cron_New entries running retired app] in F1, F2, F3.
  pose proof (crontab_entries_length lines) as Hlen.
  destruct scanErr as [err|].
  - eexists. split; [reflexivity|].
    cbn [cronScheduler retired].
    split; [|split; [rewrite F1; exact Hlen | exact F3]].
    intros c Hc. destruct (cron_runs_same _ _ Hc) as [Hp Hr].
    rewrite F1 in Hp. split; [exact Hp | congruence].
  - eexists. split; [reflexivity|].
    cbn [cronScheduler retired]. unfold cron_Start.
    split; [|split; [cbn [entries]; rewrite F1; exact Hlen | exact F3]].
    intros c Hc. destruct (cron_runs_same _ _ Hc) as [Hp Hr].
    cbn [entries running] in Hp, Hr. rewrite F1 in Hp.
    split; [exact Hp | exact Hr].
Qed.

(** X13. One line with exactly five tokens, anywhere in the file, makes
    the reload panic, whatever the other lines are: the process crashes
    with the former scheduler already stopped and replaced. *)
Theorem initCron_crashes (lines : list gostring) (scanErr : option Err)
        (w : World) :
  Exists (fun l => crashes l = true) lines ->
  exists w',
    initCron cron_Parse (Opened lines scanErr) w = Panic IndexOutOfRange w'
    /\ In (cron_Stop (cronScheduler w)) (retired w').
Proof.
  intros H. rewrite initCron_unfold.
  set (w0 := mkWorld cron_New (cron_Stop (cronScheduler w) :: retired w)
                     (output w)).
  destruct (forEach_parse_crashes lines w0 H) as [w' Hw'].
  exists w'. unfold bind. rewrite Hw'. split; [reflexivity|].
  assert (Hr : retired (state_of (forEach lines (parseCrontabLine cron_Parse)
                                          w0)) = retired w0).
  { apply (preserves_forEach (fun x => retired x = retired w0)).
    - intros l s Hs.
      destruct (parse_entries_aux cron_Parse l s) as [_ [_ E]].
      cbv zeta in E. congruence.
    - reflexivity. }
  rewrite Hw' in Hr. cbn [state_of] in Hr. rewrite Hr. left. reflexivity.
Qed.

Lemma parse_fresh_aux line :
  preserves (fun w => Forall (fun e => fresh_entry e
                                       /\ cron_Parse (Spec e) = None)
                             (entries (cronScheduler w)))
            (parseCrontabLine cron_Parse line).
Proof.
  intros w H.
  destruct (parse_entries_aux cron_Parse line w) as [E _]. cbv zeta in E.
  rewrite E. apply Forall_app. split; [exact H|].
  apply line_entries_spec.
Qed.

(** X14. However a reload ends, every entry of the scheduler it leaves has
    a schedule [cron.Parse] accepted, the job's own, starting with the
    seconds field ["0 "], and holds a fresh job: identity the hash of its
    command, logger fields its identity, schedule and command, flag clear,
    cursor at zero, buffer of full size.  No job of the former scheduler,
    with its state, is carried over. *)
Theorem initCron_entries_fresh (file : CrontabFile) (w : World) :
  Forall (fun e => fresh_entry e /\ cron_Parse (Spec e) = None)
         (entries (cronScheduler (state_of (initCron cron_Parse file w)))).
Proof.
  rewrite initCron_unfold.
  set (Q := fun w : World =>
              Forall (fun e => fresh_entry e /\ cron_Parse (Spec e) = None)
                     (entries (cronScheduler w))).
  assert (Hlog : forall l, preserves Q (wlog l))
    by (intros l s Hs; exact Hs).
  change (Q (state_of
               (match file with
                | OpenError err =>
                  (wlog (mkLog FatalLevel None None err) ;;; exit)
                | Opened lines scanErr =>
                  forEach lines (parseCrontabLine cron_Parse) ;;;
                  match scanErr with
                  | Some err =>
                    wlog (mkLog ErrorLevel None None
                                (str "failed reading crontab" ++ err))
                  | None =>
                    modify (fun w => mkWorld (cron_Start (cronScheduler w))
                                             (retired w) (output w))
                  end
                end (mkWorld cron_New (cron_Stop (cronScheduler w)
                                       :: retired w) (output w))))).
  assert (HQ0 : Q (mkWorld cron_New (cron_Stop (cronScheduler w) :: retired w)
                           (output w))) by constructor.
  revert HQ0. generalize (mkWorld cron_New (cron_Stop (cronScheduler w)
                                            :: retired w) (output w)).
  change (preserves Q
            match file with
            | OpenError err =>
              (wlog (mkLog FatalLevel None None err) ;;; exit)
            | Opened lines scanErr =>
              forEach lines (parseCrontabLine cron_Parse) ;;;
              match scanErr with
              | Some err =>
                wlog (mkLog ErrorLevel None None
                            (str "failed reading crontab" ++ err))
              | None =>
                modify (fun w => mkWorld (cron_Start (cronScheduler w))
                                         (retired w) (output w))
              end
            end).
  destruct file as [err | lines scanErr].
  - apply preserves_bind; [apply Hlog|]. intros _. apply preserves_exit.
  - apply preserves_bind.
    + apply preserves_forEach. intros l. apply parse_fresh_aux.
    + intros _. destruct scanErr; [apply Hlog|].
      apply preserves_modify. intros s Hs. exact Hs.
Qed.

End ReloadCharacterized.

Lemma initCron_registers_witness :
  exists w',
    initCron acceptAll (Opened [line_curl_a; line_curl_b] None) World0
    = Ret tt w'
    /\ (forall c,
          cron_runs (cronScheduler w') c ->
          Permutation (entries c)
                      (crontab_entries acceptAll [line_curl_a; line_curl_b])
          /\ running c = true)
    /\ (List.length (entries (cronScheduler w')) <= 2)%nat
    /\ retired w' = cron_Stop (cronScheduler World0) :: retired World0.
Proof.
  apply (initCron_registers acceptAll [line_curl_a; line_curl_b] None World0).
  repeat constructor.
Defined.

Lemma initCron_crashes_witness :
  exists w',
    initCron acceptAll crontab_crashing World0 = Panic IndexOutOfRange w'
    /\ In (cron_Stop (cronScheduler World0)) (retired w').
Proof.
  apply initCron_crashes. apply Exists_cons_tl. apply Exists_cons_hd.
  vm_compute. reflexivity.
Defined.

Example crontab_entries_two :
  crontab_entries acceptAll [line_curl_a; line_curl_b]
  = [mkEntry (str "0 */5 * * * *") job_curl_a;
     mkEntry (str "0 0 2 * * *") job_curl_b].
Proof. lazy -[createRunnable]. reflexivity. Qed.

(** ** The watcher *)

Section WatcherProperties.

Variable cron_Parse : gostring -> option Err.

Lemma watch_round_no_write m w :
  no_write m ->
  exists w',
    watch_round cron_Parse m w = Ret tt w'
    /\ cronScheduler w' = cronScheduler w
    /\ retired w' = retired w.
Proof.
  destruct m as [Op Name file | err]; cbn [no_write watch_round].
  - intros H. apply Z.eqb_neq in H. rewrite H. exists w. auto.
  - intros _. eexists. split; [reflexivity|]. auto.
Qed.

Lemma watch_loop_no_write msgs w :
  Forall no_write msgs ->
  exists w',
    forEach msgs (watch_round cron_Parse) w = Ret tt w'
    /\ cronScheduler w' = cronScheduler w
    /\ retired w' = retired w.
Proof.
  intros H. revert w. induction H as [|m msgs Hm _ IH]; intros w.
  - exists w. auto.
  - destruct (watch_round_no_write m w Hm) as [w1 [A [B C]]].
    destruct (IH w1) as [w' [A' [B' C']]].
    exists w'. cbn [forEach]. rewrite (bind_Ret _ _ _ _ _ A).
    split; [exact A'|]. split; congruence.
Qed.

(** X15. Events without the write bit (creation, removal, renaming, change
    of mode) and watcher errors never reload: the watcher goes on, the
    scheduler with its entries is the one that was there, and no instance
    is retired. *)
Theorem watchCrontab_reloads_on_write_only (msgs : list WatcherMsg)
        (w : World) :
  Forall no_write msgs ->
  exists w',
    watchCrontab cron_Parse None None msgs w = Ret tt w'
    /\ cronScheduler w' = cronScheduler w
    /\ retired w' = retired w.
Proof. intros H. apply watch_loop_no_write. exact H. Qed.

(** X16. The last write wins.  After any messages the watcher got through,
    a write event makes the process end up as a fresh start on the file of
    that moment does: it ends the same way and, when it returns, with an
    equal scheduler, nothing of the earlier crontabs being left in it;
    messages without the write bit that follow change nothing to that. *)
Theorem watchCrontab_last_write_wins (before after : list WatcherMsg)
        (Op : Z) (Name : gostring) (file : CrontabFile) (w w1 : World) :
  watchCrontab cron_Parse None None before w = Ret tt w1 ->
  Z.land Op fsnotify.Write = fsnotify.Write ->
  Forall no_write after ->
  res_rel same_sched
          (watchCrontab cron_Parse None None
                        (before ++ FsEvent Op Name file :: after) w)
          (initCron cron_Parse file World0).
Proof.
  cbn [watchCrontab]. intros Hb Hop Hafter.
  rewrite forEach_app. rewrite (bind_Ret _ _ _ _ _ Hb).
  cbn [forEach watch_round]. apply Z.eqb_eq in Hop. rewrite Hop.
  unfold bind at 1. unfold bind at 1. unfold wlog at 1, modify at 1.
  cbv beta iota.
  set (w1' := mkWorld (cronScheduler w1) (retired w1) _).
  assert (Hrel : res_rel same_sched (initCron cron_Parse file w1')
                         (initCron cron_Parse file World0)).
  { rewrite !initCron_unfold. apply initCron_rest_respects. reflexivity. }
  destruct (initCron cron_Parse file w1') as [[] w2 | k w2 | w2];
    destruct (initCron cron_Parse file World0) as [[] v | k' v | v];
    cbn [res_rel] in Hrel; try contradiction.
  - destruct (watch_loop_no_write after w2 Hafter) as [w3 [A [B C]]].
    rewrite A. cbn [res_rel]. split; [reflexivity|].
    unfold same_sched in *. destruct Hrel as [_ Hrel]. congruence.
  - exact Hrel.
  - exact Hrel.
Qed.

(** A watcher that cannot be set up ends the process before any message
    is handled. *)
Lemma watchCrontab_setup_failure (newErr addErr : option Err)
        (msgs : list WatcherMsg) (w : World) :
  newErr <> None \/ addErr <> None ->
  exists err,
    watchCrontab cron_Parse newErr addErr msgs w
    = Exit (mkWorld (cronScheduler w) (retired w)
                    (output w ++ [ELog (mkLog FatalLevel None None err)])).
Proof.
  intros H. unfold watchCrontab.
  destruct newErr as [e|]; [exists e; reflexivity|].
  destruct addErr as [e|]; [exists e; reflexivity|].
  destruct H; congruence.
Qed.

End WatcherProperties.

Lemma watchCrontab_reloads_on_write_only_witness :
  exists w',
    watchCrontab acceptAll None None
                 [FsEvent fsnotify.Chmod (str "/etc/crontab") (Opened [] None);
                  FsError (str "overflow")] world_two = Ret tt w'
    /\ cronScheduler w' = cronScheduler world_two
    /\ retired w' = retired world_two.
Proof.
  apply watchCrontab_reloads_on_write_only.
  constructor; [|constructor; [exact I | constructor]].
  vm_compute. discriminate.
Defined.

Lemma watchCrontab_last_write_wins_witness :
  res_rel same_sched
          (watchCrontab acceptAll None None
                        (msgs_written
                         ++ FsEvent fsnotify.Write (str "/etc/crontab")
                                    crontab_two
                            :: [FsError (str "overflow")]) World0)
          (initCron acceptAll crontab_two World0).
Proof.
  apply (watchCrontab_last_write_wins acceptAll msgs_written
           [FsError (str "overflow")] fsnotify.Write (str "/etc/crontab")
           crontab_two World0 World0).
  - reflexivity.
  - reflexivity.
  - constructor; [exact I | constructor].
Defined.

(** ** White space around and inside a line *)

Lemma TrimSpace_leading ws s :
  blank ws -> strings.TrimSpace (ws ++ s) = strings.TrimSpace s.
Proof.
  induction 1 as [|c t Hc Ht IH]; [reflexivity|].
  cbn [app strings.TrimSpace].
  pose proof (asciiSpace_inv _ Hc) as Hb.
  replace (utf8.RuneSelf <=? byteval c) with false
    by (symmetry; apply Z.leb_gt; unfold utf8.RuneSelf; lia).
  rewrite Hc. exact IH.
Qed.

Lemma TrimSpace_stop_blank b r :
  blank b -> strings.TrimSpace_stop (b ++ r) = strings.TrimSpace_stop r.
Proof.
  induction 1 as [|c t Hc Ht IH]; [reflexivity|].
  cbn [app strings.TrimSpace_stop].
  pose proof (asciiSpace_inv _ Hc) as Hb.
  replace (utf8.RuneSelf <=? byteval c) with false
    by (symmetry; apply Z.leb_gt; unfold utf8.RuneSelf; lia).
  rewrite Hc. exact IH.
Qed.

Lemma TrimSpace_trailing s ws :
  ascii_only s -> blank ws ->
  strings.TrimSpace (s ++ ws) = strings.TrimSpace s.
Proof.
  intros Hs Hws. induction Hs as [|c t Hc Ht IH].
  - cbn [app]. apply TrimSpace_blank. exact Hws.
  - cbn [app strings.TrimSpace].
    replace (utf8.RuneSelf <=? byteval c) with false
      by (symmetry; apply Z.leb_gt; unfold utf8.RuneSelf; lia).
    destruct (strings.asciiSpace (byteval c)); [exact IH|].
    change (c :: t ++ ws) with ((c :: t) ++ ws).
    rewrite rev_app_distr. apply TrimSpace_stop_blank.
    unfold blank. apply Forall_rev. exact Hws.
Qed.

Section Indentation.

Variable cron_Parse : gostring -> option Err.

(** X17. White space before a line, whatever the line is made of, changes
    nothing to what the parser does with it; nor does white space after
    the line as well, when the line is made of ASCII bytes. *)
Theorem parseCrontabLine_surrounding_space (before line after : gostring)
        (w : World) :
  blank before ->
  parseCrontabLine cron_Parse (before ++ line) w
  = parseCrontabLine cron_Parse line w
  /\ (blank after ->
      ascii_only line ->
      parseCrontabLine cron_Parse (before ++ line ++ after) w
      = parseCrontabLine cron_Parse line w).
Proof.
  intros Hb. split.
  - unfold parseCrontabLine.
    rewrite (TrimSpace_leading before line Hb). reflexivity.
  - intros Ha Hl. unfold parseCrontabLine.
    rewrite (TrimSpace_leading before (line ++ after) Hb).
    rewrite (TrimSpace_trailing line after Hl Ha).
    reflexivity.
Qed.

End Indentation.

Lemma parseCrontabLine_surrounding_space_witness :
  parseCrontabLine acceptAll ([tab] ++ str " " ++ line_echo_utf8) World0
  = parseCrontabLine acceptAll line_echo_utf8 World0
  /\ parseCrontabLine acceptAll
                      (str "  " ++ line_curl_a ++ [tab; ascii_of_nat 13])
                      World0
     = parseCrontabLine acceptAll line_curl_a World0.
Proof.
  split.
  - refine (proj1 (parseCrontabLine_surrounding_space
                     acceptAll ([tab] ++ str " ") line_echo_utf8 [] World0 _)).
    vm_compute. repeat constructor.
  - refine (proj2 (parseCrontabLine_surrounding_space
                     acceptAll (str "  ") line_curl_a [tab; ascii_of_nat 13]
                     World0 _) _ _).
    + vm_compute. repeat constructor.
    + vm_compute. repeat constructor.
    + vm_compute. repeat constructor.
Defined.

(** ** Lines in the documented format *)

Lemma field_char c :
  byteval c < 128 /\ strings.asciiSpace (byteval c) = false ->
  Ascii.eqb c " "%char = false /\ Ascii.eqb c tab = false.
Proof. intros [_ H]. apply clean_not_space. exact H. Qed.

Lemma lookup_replacer_other c r :
  Ascii.eqb c " "%char = false -> Ascii.eqb c tab = false ->
  strings.lookup replacer (c :: r) = None.
Proof.
  intros Hs Ht. unfold replacer. change (str "  ") with [" "%char; " "%char].
  cbn [strings.lookup strings.HasPrefix]. rewrite Hs, Ht. reflexivity.
Qed.

(** The replacer copies a field. *)
Lemma Replace_field f r :
  Forall (fun c => byteval c < 128
                   /\ strings.asciiSpace (byteval c) = false) f ->
  strings.Replace replacer (f ++ r) = f ++ strings.Replace replacer r.
Proof.
  unfold strings.Replace. induction 1 as [|c f Hc Hf IH]; [reflexivity|].
  destruct (field_char c Hc) as [Hs Ht].
  cbn [app strings.Replace_from].
  rewrite (lookup_replacer_other c (f ++ r) Hs Ht). rewrite IH. reflexivity.
Qed.

Lemma starts_field_app f r : field f -> starts_field (f ++ r).
Proof.
  intros [Hne Hf]. destruct f as [|c f]; [congruence|].
  inversion Hf as [|? ? Hc _]. apply (field_char c Hc).
Qed.

Lemma Replace_one_space r :
  starts_field r ->
  strings.Replace replacer (" "%char :: r)
  = " "%char :: strings.Replace replacer r.
Proof.
  intros H. unfold strings.Replace, replacer.
  change (str "  ") with [" "%char; " "%char].
  cbn [strings.Replace_from strings.lookup strings.HasPrefix].
  destruct r as [|c r]; cbn [strings.HasPrefix andb Ascii.eqb].
  - reflexivity.
  - cbn in H. rewrite H. reflexivity.
Qed.

Lemma Replace_two_spaces r :
  strings.Replace replacer (" "%char :: " "%char :: r)
  = " "%char :: strings.Replace replacer r.
Proof.
  unfold strings.Replace, replacer.
  change (str "  ") with [" "%char; " "%char].
  cbn [strings.Replace_from strings.lookup strings.HasPrefix].
  rewrite HasPrefix_nil. reflexivity.
Qed.

Lemma Replace_tab r :
  strings.Replace replacer (tab :: r)
  = " "%char :: strings.Replace replacer r.
Proof.
  unfold strings.Replace, replacer.
  change (str "  ") with [" "%char; " "%char].
  cbn [strings.Replace_from strings.lookup strings.HasPrefix].
  rewrite HasPrefix_nil. reflexivity.
Qed.

(** The replacer turns a separator before a field into one space. *)
Lemma Replace_separator s r :
  separator s -> starts_field r ->
  strings.Replace replacer (s ++ r) = " "%char :: strings.Replace replacer r.
Proof.
  intros [-> | [-> | ->]] H.
  - apply Replace_one_space. exact H.
  - apply Replace_tab.
  - apply Replace_two_spaces.
Qed.

(** Three spaces before a field become two. *)
Lemma Replace_three_spaces r :
  starts_field r ->
  strings.Replace replacer (str "   " ++ r)
  = " "%char :: " "%char :: strings.Replace replacer r.
Proof.
  intros H. change (str "   " ++ r) with (" "%char :: " "%char :: " "%char :: r).
  rewrite Replace_two_spaces, Replace_one_space by exact H. reflexivity.
Qed.

Lemma TrimSpace_stop_last l d :
  byteval d < 128 -> strings.asciiSpace (byteval d) = false ->
  strings.TrimSpace_stop (rev (l ++ [d])) = l ++ [d].
Proof.
  intros H1 H2. rewrite rev_unit. cbn [strings.TrimSpace_stop].
  replace (utf8.RuneSelf <=? byteval d) with false
    by (symmetry; apply Z.leb_gt; unfold utf8.RuneSelf; lia).
  rewrite H2. cbn [rev]. rewrite rev_involutive. reflexivity.
Qed.

(** A line that starts with a field and ends with one is not trimmed. *)
Lemma TrimSpace_fields a m b :
  field a -> field b ->
  strings.TrimSpace (a ++ m ++ b) = a ++ m ++ b.
Proof.
  intros [Ha Hfa] [Hb Hfb].
  destruct a as [|c a]; [congruence|].
  destruct (exists_last Hb) as [b' [d ->]].
  inversion Hfa as [|? ? [Hc1 Hc2] _]. subst.
  apply Forall_app in Hfb. destruct Hfb as [_ Hd].
  inversion Hd as [|? ? [Hd1 Hd2] _]. subst.
  cbn [app strings.TrimSpace].
  replace (utf8.RuneSelf <=? byteval c) with false
    by (symmetry; apply Z.leb_gt; unfold utf8.RuneSelf; lia).
  rewrite Hc2.
  assert (E : c :: a ++ m ++ b' ++ [d] = (c :: a ++ m ++ b') ++ [d])
    by (cbn [app]; rewrite <- !app_assoc; reflexivity).
  rewrite E. apply TrimSpace_stop_last; assumption.
Qed.

Lemma field_nospace f :
  field f -> Forall (fun c => Ascii.eqb c " "%char = false) f.
Proof.
  intros [_ H]. induction H as [|c f Hc _ IH]; constructor; [|exact IH].
  apply (field_char c Hc).
Qed.

Lemma field_len f : field f -> 1 <= len f.
Proof.
  intros [H _]. destruct f; [congruence|]. unfold len. simpl. lia.
Qed.

Lemma IndexByte_absent_nospace p :
  Forall (fun c => Ascii.eqb c " "%char = false) p ->
  strings.IndexByte p " "%char = -1.
Proof.
  induction 1 as [|c p Hc _ IH]; [reflexivity|].
  cbn [strings.IndexByte]. rewrite Hc, IH. reflexivity.
Qed.

Lemma IndexByte_first_space p r :
  Forall (fun c => Ascii.eqb c " "%char = false) p ->
  strings.IndexByte (p ++ " "%char :: r) " "%char = len p.
Proof.
  unfold len. induction 1 as [|c p Hc _ IH]; [reflexivity|].
  cbn [app strings.IndexByte List.length]. rewrite Hc, IH.
  destruct (Z.of_nat (List.length p) <? 0) eqn:E;
    [apply Z.ltb_lt in E; lia | lia].
Qed.

(** One round of the splitting loop cuts at the first space. *)
Lemma genSplit_loop_cut k p r :
  Forall (fun c => Ascii.eqb c " "%char = false) p ->
  strings.genSplit_loop (S k) (p ++ " "%char :: r) " "%char
  = p :: strings.genSplit_loop k r " "%char.
Proof.
  intros H. cbn [strings.genSplit_loop].
  rewrite (IndexByte_first_space p r H).
  replace (len p <? 0) with false
    by (symmetry; apply Z.ltb_ge; apply len_nonneg).
  unfold len. rewrite Nat2Z.id.
  rewrite firstn_app, Nat.sub_diag, firstn_all. cbn [firstn].
  rewrite app_nil_r.
  replace (List.length p + 1)%nat with (List.length p + 1)%nat by reflexivity.
  rewrite skipn_app.
  rewrite skipn_all2 by lia.
  replace (List.length p + 1 - List.length p)%nat with 1%nat by lia.
  reflexivity.
Qed.

Lemma genSplit_loop_whole k p :
  Forall (fun c => Ascii.eqb c " "%char = false) p ->
  strings.genSplit_loop k p " "%char = [p].
Proof.
  intros H. destruct k; cbn [strings.genSplit_loop]; [reflexivity|].
  rewrite (IndexByte_absent_nospace p H). reflexivity.
Qed.

(** The tokens of a line from its normalized form, when that is long
    enough for seven pieces to be allowed. *)
Lemma tokens_of_normalized line pieces :
  6 <= len (normalized line) ->
  strings.genSplit_loop 6 (normalized line) " "%char = pieces ->
  tokens line = pieces.
Proof.
  intros Hlen Hp. unfold tokens, strings.SplitN, strings.genSplit.
  change (7 =? 0) with false. change (7 <? 0) with false. cbv iota.
  replace (len (normalized line) + 1 <? 7) with false
    by (symmetry; apply Z.ltb_ge; lia).
  change (Z.to_nat (7 - 1)) with 6%nat. rewrite Hp.
  unfold elems. cbn [arr slen]. apply firstn_length_app.
Qed.

Lemma Replace_field_end f :
  field f -> strings.Replace replacer f = f.
Proof.
  intros [_ H]. rewrite <- (app_nil_r f) at 1.
  rewrite (Replace_field f [] H). apply app_nil_r.
Qed.

Lemma len_cons {A : Type} (a : A) (l : list A) : len (a :: l) = 1 + len l.
Proof. unfold len. cbn [List.length]. lia. Qed.

(** A line from a field to a field, the first not starting with [#], is
    neither trimmed nor ignored. *)
Lemma framed_line a m b :
  field a -> field b ->
  strings.HasPrefix a (str "#") = false ->
  strings.TrimSpace (a ++ m ++ b) = a ++ m ++ b
  /\ ignored (a ++ m ++ b) = false.
Proof.
  intros Ha Hb Hhash.
  pose proof (TrimSpace_fields a m b Ha Hb) as Ht.
  split; [exact Ht|]. unfold ignored. rewrite Ht.
  destruct Ha as [Hne _]. destruct a as [|c a]; [congruence|].
  apply orb_false_iff. split.
  - apply Z.leb_gt. unfold len. cbn [app List.length]. lia.
  - change (str "#") with ["#"%char] in *.
    cbn [app strings.HasPrefix] in *.
    rewrite HasPrefix_nil in *. exact Hhash.
Qed.

Section Format.

Variable cron_Parse : gostring -> option Err.

Lemma parse_tokens_aux line w t1 t2 t3 t4 t5 t6 more :
  ignored line = false ->
  tokens line = t1 :: t2 :: t3 :: t4 :: t5 :: t6 :: more ->
  parseCrontabLine cron_Parse line w
  = Ret tt (offer cron_Parse w
              (createRunnable t6 (match more with [] => [] | t7 :: _ => t7 end)
                              (schedule_of t1 t2 t3 t4 t5))).
Proof.
  intros E Htok. destruct (ignored_false line E) as [Hne Hhash].
  rewrite (parseCrontabLine_six_tokens cron_Parse line w
             t1 t2 t3 t4 t5 t6 more Hne Hhash Htok).
  reflexivity.
Qed.

(** X18. A line in the documented format with no arguments (six fields
    of ASCII bytes without white space, each two separated by a space, a
    tab or two spaces, the first not starting with [#]) is offered to the
    scheduler as the job of its sixth field, with the first five after
    ["0 "] as schedule, joined by single spaces, and no arguments. *)
Theorem parseCrontabLine_six_fields
        (f1 s1 f2 s2 f3 s3 f4 s4 f5 s5 f6 : gostring) (w : World) :
  field f1 -> field f2 -> field f3 -> field f4 -> field f5 -> field f6 ->
  separator s1 -> separator s2 -> separator s3 -> separator s4 ->
  separator s5 ->
  strings.HasPrefix f1 (str "#") = false ->
  parseCrontabLine cron_Parse
    (f1 ++ s1 ++ f2 ++ s2 ++ f3 ++ s3 ++ f4 ++ s4 ++ f5 ++ s5 ++ f6) w
  = Ret tt (offer cron_Parse w
              (createRunnable f6 [] (schedule_of f1 f2 f3 f4 f5))).
Proof.
  intros F1 F2 F3 F4 F5 F6 S1 S2 S3 S4 S5 Hhash.
  set (line := f1 ++ s1 ++ f2 ++ s2 ++ f3 ++ s3 ++ f4 ++ s4 ++ f5 ++ s5 ++ f6).
  assert (Hshape : line
                   = f1 ++ (s1 ++ f2 ++ s2 ++ f3 ++ s3 ++ f4 ++ s4 ++ f5 ++ s5)
                        ++ f6)
    by (unfold line; rewrite <- !app_assoc; reflexivity).
  destruct (framed_line
              f1 (s1 ++ f2 ++ s2 ++ f3 ++ s3 ++ f4 ++ s4 ++ f5 ++ s5) f6
              F1 F6 Hhash) as [Htrim Hign].
  rewrite <- Hshape in Htrim, Hign.
  assert (Hnorm : normalized line
                  = f1 ++ " "%char :: f2 ++ " "%char :: f3 ++ " "%char :: f4
                       ++ " "%char :: f5 ++ " "%char :: f6).
  { unfold normalized. rewrite Htrim. unfold line.
    rewrite (Replace_field f1 _ (proj2 F1)).
    rewrite (Replace_separator s1 _ S1 (starts_field_app f2 _ F2)).
    rewrite (Replace_field f2 _ (proj2 F2)).
    rewrite (Replace_separator s2 _ S2 (starts_field_app f3 _ F3)).
    rewrite (Replace_field f3 _ (proj2 F3)).
    rewrite (Replace_separator s3 _ S3 (starts_field_app f4 _ F4)).
    rewrite (Replace_field f4 _ (proj2 F4)).
    rewrite (Replace_separator s4 _ S4 (starts_field_app f5 _ F5)).
    rewrite (Replace_field f5 _ (proj2 F5)).
    rewrite <- (app_nil_r f6) at 1.
    rewrite (Replace_separator s5 _ S5 (starts_field_app f6 _ F6)).
    rewrite app_nil_r, (Replace_field_end f6 F6). reflexivity. }
  apply (parse_tokens_aux line w f1 f2 f3 f4 f5 f6 []); [exact Hign|].
  apply tokens_of_normalized.
  - rewrite Hnorm.
    repeat (rewrite len_app || rewrite len_cons).
    pose proof (field_len f1 F1). pose proof (field_len f2 F2).
    pose proof (field_len f3 F3). pose proof (field_len f4 F4).
    pose proof (field_len f5 F5). pose proof (field_len f6 F6). lia.
  - rewrite Hnorm.
    rewrite (genSplit_loop_cut _ f1 _ (field_nospace f1 F1)).
    rewrite (genSplit_loop_cut _ f2 _ (field_nospace f2 F2)).
    rewrite (genSplit_loop_cut _ f3 _ (field_nospace f3 F3)).
    rewrite (genSplit_loop_cut _ f4 _ (field_nospace f4 F4)).
    rewrite (genSplit_loop_cut _ f5 _ (field_nospace f5 F5)).
    rewrite (genSplit_loop_whole _ f6 (field_nospace f6 F6)).
    reflexivity.
Qed.

(** X19. With arguments after the command, the argument string of the job
    is the rest of the line as the replacer leaves it: the rest is not cut
    at its spaces, but two spaces in it have become one and tabs have
    become spaces. *)
Theorem parseCrontabLine_with_arguments
        (f1 s1 f2 s2 f3 s3 f4 s4 f5 s5 f6 s6 m b : gostring) (w : World) :
  field f1 -> field f2 -> field f3 -> field f4 -> field f5 -> field f6 ->
  separator s1 -> separator s2 -> separator s3 -> separator s4 ->
  separator s5 -> separator s6 ->
  strings.HasPrefix f1 (str "#") = false ->
  starts_field (m ++ b) -> field b ->
  parseCrontabLine cron_Parse
    (f1 ++ s1 ++ f2 ++ s2 ++ f3 ++ s3 ++ f4 ++ s4 ++ f5 ++ s5 ++ f6
        ++ s6 ++ m ++ b) w
  = Ret tt (offer cron_Parse w
              (createRunnable f6 (strings.Replace replacer (m ++ b))
                              (schedule_of f1 f2 f3 f4 f5))).
Proof.
  intros F1 F2 F3 F4 F5 F6 S1 S2 S3 S4 S5 S6 Hhash Hargs Fb.
  set (line := f1 ++ s1 ++ f2 ++ s2 ++ f3 ++ s3 ++ f4 ++ s4 ++ f5 ++ s5 ++ f6
                  ++ s6 ++ m ++ b).
  assert (Hshape : line
                   = f1 ++ (s1 ++ f2 ++ s2 ++ f3 ++ s3 ++ f4 ++ s4 ++ f5 ++ s5
                               ++ f6 ++ s6 ++ m) ++ b)
    by (unfold line; rewrite <- !app_assoc; reflexivity).
  destruct (framed_line
              f1 (s1 ++ f2 ++ s2 ++ f3 ++ s3 ++ f4 ++ s4 ++ f5 ++ s5
                     ++ f6 ++ s6 ++ m) b F1 Fb Hhash) as [Htrim Hign].
  rewrite <- Hshape in Htrim, Hign.
  assert (Hnorm : normalized line
                  = f1 ++ " "%char :: f2 ++ " "%char :: f3 ++ " "%char :: f4
                       ++ " "%char :: f5 ++ " "%char :: f6
                       ++ " "%char :: strings.Replace replacer (m ++ b)).
  { unfold normalized. rewrite Htrim. unfold line.
    rewrite (Replace_field f1 _ (proj2 F1)).
    rewrite (Replace_separator s1 _ S1 (starts_field_app f2 _ F2)).
    rewrite (Replace_field f2 _ (proj2 F2)).
    rewrite (Replace_separator s2 _ S2 (starts_field_app f3 _ F3)).
    rewrite (Replace_field f3 _ (proj2 F3)).
    rewrite (Replace_separator s3 _ S3 (starts_field_app f4 _ F4)).
    rewrite (Replace_field f4 _ (proj2 F4)).
    rewrite (Replace_separator s4 _ S4 (starts_field_app f5 _ F5)).
    rewrite (Replace_field f5 _ (proj2 F5)).
    rewrite (Replace_separator s5 _ S5 (starts_field_app f6 _ F6)).
    rewrite (Replace_field f6 _ (proj2 F6)).
    rewrite (Replace_separator s6 _ S6 Hargs).
    reflexivity. }
  apply (parse_tokens_aux line w f1 f2 f3 f4 f5 f6
           [strings.Replace replacer (m ++ b)]); [exact Hign|].
  apply tokens_of_normalized.
  - rewrite Hnorm.
    repeat (rewrite len_app || rewrite len_cons).
    pose proof (field_len f1 F1). pose proof (field_len f2 F2).
    pose proof (field_len f3 F3). pose proof (field_len f4 F4).
    pose proof (field_len f5 F5). pose proof (field_len f6 F6).
    pose proof (len_nonneg (strings.Replace replacer (m ++ b))). lia.
  - rewrite Hnorm.
    rewrite (genSplit_loop_cut _ f1 _ (field_nospace f1 F1)).
    rewrite (genSplit_loop_cut _ f2 _ (field_nospace f2 F2)).
    rewrite (genSplit_loop_cut _ f3 _ (field_nospace f3 F3)).
    rewrite (genSplit_loop_cut _ f4 _ (field_nospace f4 F4)).
    rewrite (genSplit_loop_cut _ f5 _ (field_nospace f5 F5)).
    rewrite (genSplit_loop_cut _ f6 _ (field_nospace f6 F6)).
    reflexivity.
Qed.

(** X20. Three spaces between the first two fields of a line of six
    fields are not taken as one separator: the replacer leaves two, the
    split finds an empty field, and every field moves by one: the job
    offered has the fifth field as its command, the sixth as its argument
    string, and a schedule with an empty hour. *)
Theorem parseCrontabLine_three_spaces
        (f1 f2 s2 f3 s3 f4 s4 f5 s5 f6 : gostring) (w : World) :
  field f1 -> field f2 -> field f3 -> field f4 -> field f5 -> field f6 ->
  separator s2 -> separator s3 -> separator s4 -> separator s5 ->
  strings.HasPrefix f1 (str "#") = false ->
  parseCrontabLine cron_Parse
    (f1 ++ str "   " ++ f2 ++ s2 ++ f3 ++ s3 ++ f4 ++ s4 ++ f5 ++ s5 ++ f6) w
  = Ret tt (offer cron_Parse w
              (createRunnable f5 f6 (schedule_of f1 [] f2 f3 f4))).
Proof.
  intros F1 F2 F3 F4 F5 F6 S2 S3 S4 S5 Hhash.
  set (line := f1 ++ str "   " ++ f2 ++ s2 ++ f3 ++ s3 ++ f4 ++ s4 ++ f5
                  ++ s5 ++ f6).
  assert (Hshape : line
                   = f1 ++ (str "   " ++ f2 ++ s2 ++ f3 ++ s3 ++ f4 ++ s4
                                ++ f5 ++ s5) ++ f6)
    by (unfold line; rewrite <- !app_assoc; reflexivity).
  destruct (framed_line
              f1 (str "   " ++ f2 ++ s2 ++ f3 ++ s3 ++ f4 ++ s4 ++ f5 ++ s5)
              f6 F1 F6 Hhash) as [Htrim Hign].
  rewrite <- Hshape in Htrim, Hign.
  assert (Hnorm : normalized line
                  = f1 ++ " "%char :: [] ++ " "%char :: f2 ++ " "%char :: f3
                       ++ " "%char :: f4 ++ " "%char :: f5 ++ " "%char :: f6).
  { unfold normalized. rewrite Htrim. unfold line.
    rewrite (Replace_field f1 _ (proj2 F1)).
    rewrite (Replace_three_spaces _ (starts_field_app f2 _ F2)).
    rewrite (Replace_field f2 _ (proj2 F2)).
    rewrite (Replace_separator s2 _ S2 (starts_field_app f3 _ F3)).
    rewrite (Replace_field f3 _ (proj2 F3)).
    rewrite (Replace_separator s3 _ S3 (starts_field_app f4 _ F4)).
    rewrite (Replace_field f4 _ (proj2 F4)).
    rewrite (Replace_separator s4 _ S4 (starts_field_app f5 _ F5)).
    rewrite (Replace_field f5 _ (proj2 F5)).
    rewrite <- (app_nil_r f6) at 1.
    rewrite (Replace_separator s5 _ S5 (starts_field_app f6 _ F6)).
    rewrite app_nil_r, (Replace_field_end f6 F6). reflexivity. }
  apply (parse_tokens_aux line w f1 [] f2 f3 f4 f5 [f6]); [exact Hign|].
  apply tokens_of_normalized.
  - rewrite Hnorm.
    repeat (rewrite len_app || rewrite len_cons).
    pose proof (field_len f1 F1). pose proof (field_len f2 F2).
    pose proof (field_len f3 F3). pose proof (field_len f4 F4).
    pose proof (field_len f5 F5). pose proof (field_len f6 F6).
    unfold len at 2. cbn [List.length]. lia.
  - rewrite Hnorm.
    rewrite (genSplit_loop_cut _ f1 _ (field_nospace f1 F1)).
    rewrite (genSplit_loop_cut _ [] _ (Forall_nil _)).
    rewrite (genSplit_loop_cut _ f2 _ (field_nospace f2 F2)).
    rewrite (genSplit_loop_cut _ f3 _ (field_nospace f3 F3)).
    rewrite (genSplit_loop_cut _ f4 _ (field_nospace f4 F4)).
    rewrite (genSplit_loop_cut _ f5 _ (field_nospace f5 F5)).
    reflexivity.
Qed.

End Format.

(** ** The further properties on the sample inputs *)

Lemma flush_twice_witness :
  (flush ;;; flush) proc_after_ok = flush proc_after_ok.
Proof.
  apply flush_twice.
  split; [vm_compute; reflexivity|].
  split; vm_compute; discriminate.
Defined.

(** ["*/5 * * * *<tab>date"], with two spaces after the first field. *)
Lemma parseCrontabLine_six_fields_witness :
  parseCrontabLine acceptAll
    (str "*/5" ++ str "  " ++ str "*" ++ str " " ++ str "*" ++ str " "
         ++ str "*" ++ str " " ++ str "*" ++ [tab] ++ str "date") World0
  = Ret tt (offer acceptAll World0
              (createRunnable (str "date") []
                 (schedule_of (str "*/5") (str "*") (str "*") (str "*")
                              (str "*")))).
Proof.
  apply parseCrontabLine_six_fields;
    try field_tac; try separator_tac; reflexivity.
Defined.

(** ["0 2 * * * curl -s  http://example.org"], with two spaces in the
    arguments. *)
Lemma parseCrontabLine_with_arguments_witness :
  parseCrontabLine acceptAll
    (str "0" ++ str " " ++ str "2" ++ str " " ++ str "*" ++ str " "
         ++ str "*" ++ str " " ++ str "*" ++ str " " ++ str "curl"
         ++ str " " ++ str "-s  " ++ str "http://example.org") World0
  = Ret tt (offer acceptAll World0
              (createRunnable (str "curl")
                 (strings.Replace replacer
                    (str "-s  " ++ str "http://example.org"))
                 (schedule_of (str "0") (str "2") (str "*") (str "*")
                              (str "*")))).
Proof.
  apply parseCrontabLine_with_arguments;
    try field_tac; try separator_tac; reflexivity.
Defined.

Example arguments_normalized :
  strings.Replace replacer (str "-s  " ++ str "http://example.org")
  = str "-s http://example.org".
Proof. vm_compute. reflexivity. Qed.

(** ["0   2 * * * date"]. *)
Lemma parseCrontabLine_three_spaces_witness :
  parseCrontabLine acceptAll
    (str "0" ++ str "   " ++ str "2" ++ str " " ++ str "*" ++ str " "
         ++ str "*" ++ str " " ++ str "*" ++ str " " ++ str "date") World0
  = Ret tt (offer acceptAll World0
              (createRunnable (str "*") (str "date")
                 (schedule_of (str "0") [] (str "2") (str "*") (str "*")))).
Proof.
  apply parseCrontabLine_three_spaces;
    try field_tac; try separator_tac; reflexivity.
Defined.

(** ** Output left by an earlier run *)

Section Growing.

Variable X : list gostring.

Let G (q : Proc) : Prop := exists more, flushOutputs (trace q) = X ++ more.

Lemma emit_growing e : preserves G (emit e).
Proof.
  apply preserves_modify. intros s [more H]. unfold G. simpl.
  exists (more ++ flushed e). rewrite flushOutputs_app, H. simpl.
  rewrite app_nil_r, app_assoc. reflexivity.
Qed.

Lemma update_growing f : preserves G (update f).
Proof. apply preserves_modify. intros s H. exact H. Qed.

Lemma ctxLog_growing lvl field msg : preserves G (ctxLog lvl field msg).
Proof.
  apply preserves_bind; [apply preserves_gets|].
  intros r. apply emit_growing.
Qed.

Lemma flush_growing : preserves G flush.
Proof.
  apply preserves_bind; [apply preserves_gets|].
  intros r. destruct (_ =? _); [apply preserves_ret|].
  apply preserves_bind; [apply preserves_checked|].
  intros b. cbv zeta. apply preserves_bind; [apply update_growing|].
  intros _. apply ctxLog_growing.
Qed.

Lemma Run_stdout_line_growing text : preserves G (Run_stdout_line text).
Proof.
  unfold Run_stdout_line. cbv zeta.
  destruct (_ <? _); [apply ctxLog_growing|].
  apply preserves_bind; [apply preserves_gets|].
  intros r. apply preserves_bind.
  { destruct (_ <? _); [apply flush_growing | apply preserves_ret]. }
  intros _. apply preserves_bind; [apply preserves_gets|].
  intros r'. apply preserves_bind; [apply preserves_checked|].
  intros b. apply preserves_bind; [apply update_growing|].
  intros _. apply update_growing.
Qed.

Lemma logErr_growing e : preserves G (logErr e).
Proof. destruct e; [apply ctxLog_growing | apply preserves_ret]. Qed.

Lemma Run_rest_growing w cmd evs :
  preserves G
    (forEach evs (onEvent Run_stdout_line) ;;;
     logErr (scanErr (stdout w)) ;;;
     forEach (events (stderr w)) (onEvent Run_stderr_line) ;;;
     logErr (scanErr (stderr w)) ;;;
     emit (EWait cmd) ;;;
     logErr (waitErr w) ;;;
     update (set_isRunning false)).
Proof.
  apply preserves_bind.
  { apply preserves_forEach. intros [text|]; simpl;
      [apply Run_stdout_line_growing | apply flush_growing]. }
  intros _. apply preserves_bind; [apply logErr_growing|].
  intros _. apply preserves_bind.
  { apply preserves_forEach. intros [text|]; simpl;
      [apply ctxLog_growing | apply flush_growing]. }
  intros _. apply preserves_bind; [apply logErr_growing|].
  intros _. apply preserves_bind; [apply emit_growing|].
  intros _. apply preserves_bind; [apply logErr_growing|].
  intros _. apply update_growing.
Qed.

End Growing.

Section Leftover.

Variable executer : gostring.
Variable SHELL : gostring.

(** X21. Output that an earlier run left in the buffer is reported by the
    next run: when the periodic flusher fires before the first line of the
    new run is read, the first flush record of the new run holds what was
    in the buffer before, trimmed. *)
Theorem Run_flushes_leftover_output (w : Firing) (p : Proc)
        (evs : list PipeEvent) :
  buffer_ok (self p) ->
  0 < bufferPos (self p) ->
  lookPathErr w (Command (self p)) = None ->
  stdoutPipeErr w = None ->
  stderrPipeErr w = None ->
  events (stdout w) = Tick :: evs ->
  exists more,
    flushOutputs (trace (state_of (Run executer SHELL w p)))
    = flushOutputs (trace p)
      ++ strings.TrimSpace (region (self p)) :: more.
Proof.
  intros Hok Hpos HL H1 H2 Hev. rewrite Run_started by assumption.
  set (cmd := Run_command executer SHELL (self p)).
  set (q0 := at_start cmd (startErr w) p).
  assert (Hs0 : self q0 = set_isRunning true (self p))
    by (unfold q0, at_start; rewrite withErr_self; reflexivity).
  assert (Hok0 : buffer_ok (self q0)) by (rewrite Hs0; exact Hok).
  assert (Hf0 : flushOutputs (trace q0) = flushOutputs (trace p)).
  { unfold q0, at_start. rewrite flushOutputs_withErr. cbn [trace].
    rewrite flushOutputs_app. apply app_nil_r. }
  unfold Run_after_start. rewrite Hev. cbn [forEach onEvent].
  unfold bind at 1. unfold bind at 1.
  rewrite (flush_spec q0 Hok0).
  replace (bufferPos (self q0) =? 0) with false
    by (symmetry; apply Z.eqb_neq; rewrite Hs0;
        cbn [set_isRunning bufferPos]; lia).
  set (q1 := mkProc _ _).
  pose proof (Run_rest_growing
                (flushOutputs (trace p)
                 ++ [strings.TrimSpace (region (self p))])
                w cmd evs q1) as Hg.
  destruct Hg as [more Hmore].
  - exists []. unfold q1. cbn [trace]. rewrite flushOutputs_app, Hf0.
    rewrite Hs0. cbn. rewrite app_nil_r. reflexivity.
  - exists more. rewrite <- app_assoc in Hmore. exact Hmore.
Qed.

End Leftover.

Lemma Run_flushes_leftover_output_witness :
  exists more,
    flushOutputs (trace (state_of (Run (str "go") (str "/bin/ash")
                                       firing_tick_first proc_after_ok)))
    = flushOutputs (trace proc_after_ok)
      ++ strings.TrimSpace (region (self proc_after_ok)) :: more.
Proof.
  apply (Run_flushes_leftover_output (str "go") (str "/bin/ash")
           firing_tick_first proc_after_ok [Line (str "again")]).
  - split; [vm_compute; reflexivity|].
    split; vm_compute; discriminate.
  - vm_compute. reflexivity.
  - reflexivity.
  - reflexivity.
  - reflexivity.
  - reflexivity.
Defined.

(** ** The scanner of a pipe *)

Lemma MaxScanTokenSize_lt : bufio.MaxScanTokenSize < logBufferSize.
Proof. reflexivity. Qed.

(** At a line the scanner does not return, what was written after it and
    how the reading would have ended no longer count. *)
Lemma Scan_too_long before text after e :
  bufio.MaxScanTokenSize <= len text ->
  bufio.Scan (before ++ Line text :: after) e
  = bufio.Scan before (Some bufio.ErrTooLong).
Proof.
  intros Hlong. induction before as [|[data|] before IH]; cbn [app bufio.Scan].
  - replace (bufio.MaxScanTokenSize <=? len text) with true
      by (symmetry; apply Z.leb_le; exact Hlong).
    reflexivity.
  - destruct (bufio.MaxScanTokenSize <=? len data); [reflexivity|].
    rewrite IH. reflexivity.
  - rewrite IH. reflexivity.
Qed.

Lemma Scan_ErrTooLong before :
  snd (bufio.Scan before (Some bufio.ErrTooLong)) = Some bufio.ErrTooLong.
Proof.
  induction before as [|[data|] before IH]; cbn [bufio.Scan].
  - reflexivity.
  - destruct (bufio.MaxScanTokenSize <=? len data); [reflexivity|].
    destruct (bufio.Scan before (Some bufio.ErrTooLong)). exact IH.
  - destruct (bufio.Scan before (Some bufio.ErrTooLong)). exact IH.
Qed.

Lemma dropCR_len data : len (bufio.dropCR data) <= len data.
Proof.
  unfold bufio.dropCR. destruct (rev data) as [|c r] eqn:E; [lia|].
  destruct (Ascii.eqb c (ascii_of_nat 13)); [|lia].
  unfold len. rewrite length_rev.
  rewrite <- (length_rev data), E. cbn [List.length]. lia.
Qed.

Lemma Scan_scannable w e : Forall scannable (fst (bufio.Scan w e)).
Proof.
  induction w as [|[data|] w IH]; cbn [bufio.Scan].
  - constructor.
  - destruct (bufio.MaxScanTokenSize <=? len data) eqn:E; [constructor|].
    destruct (bufio.Scan w e) as [l e']. cbn [fst] in *.
    constructor; [|exact IH].
    apply Z.leb_gt in E. pose proof (dropCR_len data). cbn [scannable]. lia.
  - destruct (bufio.Scan w e) as [l e']. cbn [fst] in *.
    constructor; [exact I | exact IH].
Qed.

Lemma preserves_forEach_Forall {S A : Type} (I : S -> Prop) (l : list A)
      (body : A -> M S unit) :
  Forall (fun a => preserves I (body a)) l -> preserves I (forEach l body).
Proof.
  induction 1 as [|a l Ha Hl IH]; simpl.
  - apply preserves_ret.
  - apply preserves_bind; [exact Ha | intros _; exact IH].
Qed.

(** The records the size check would write are records of that kind. *)
Lemma tooLarge_tooLargeRecord r : tooLarge (tooLargeRecord r) = true.
Proof. reflexivity. Qed.

(** Given to the loop body, a line as long as the buffer would be
    refused with such a record. *)
Example tooLarge_if_given :
  tooLargeRecords
    (trace (state_of (Run_stdout_line line_oversized proc_fresh)))
  = [tooLargeRecord (self proc_fresh)].
Proof.
  rewrite Run_stdout_line_oversized by (vm_compute; reflexivity).
  reflexivity.
Qed.

Section Oversized.

Variable executer : gostring.
Variable SHELL : gostring.

(** C3. A line of standard output whose message (the line and its
    newline) is longer than the buffer is never given to the loop: the
    scanner stops at it with [ErrTooLong], so the loop sees what came
    before the line and nothing else, and the whole of [Run] (the buffer,
    the cursor, every flush record, every other effect) is what it is
    for a command whose output broke off before the line.  No byte of the
    line is stored and no flush record holds any of it; the output after
    the line is not read either. *)
Theorem oversized_message_dropped (w : Firing) (p : Proc)
        (before after : list PipeEvent) (text : gostring) :
  written (stdout w) = before ++ Line text :: after ->
  logBufferSize < len text + 1 ->
  events (stdout w) = events (stdout (cut_stdout w before))
  /\ scanErr (stdout w) = Some bufio.ErrTooLong
  /\ Run executer SHELL w p = Run executer SHELL (cut_stdout w before) p.
Proof.
  intros Hw Hbig.
  assert (Hlong : bufio.MaxScanTokenSize <= len text).
  { pose proof MaxScanTokenSize_lt. lia. }
  assert (Hscan : bufio.Scan (written (stdout w)) (readErr (stdout w))
                  = bufio.Scan before (Some bufio.ErrTooLong)).
  { rewrite Hw. apply Scan_too_long. exact Hlong. }
  assert (He : events (stdout w) = events (stdout (cut_stdout w before))).
  { unfold events. rewrite Hscan. reflexivity. }
  assert (Hs : scanErr (stdout w) = scanErr (stdout (cut_stdout w before))).
  { unfold scanErr. rewrite Hscan. reflexivity. }
  split; [exact He|]. split.
  - unfold scanErr. rewrite Hscan. apply Scan_ErrTooLong.
  - unfold Run. rewrite <- He, <- Hs. reflexivity.
Qed.

Section NoComplaint.

Variable tr0 : list Effect.

Let K (q : Proc) : Prop := tooLargeRecords (trace q) = tooLargeRecords tr0.

Lemma emit_no_complaint e : tooLarge e = false -> preserves K (emit e).
Proof.
  intros He. apply preserves_modify. intros s Hs. unfold K in *.
  cbn [trace]. unfold tooLargeRecords in *. rewrite filter_app.
  cbn [filter]. rewrite He, app_nil_r. exact Hs.
Qed.

Lemma ctxLog_no_complaint lvl field msg :
  (forall c, tooLarge (ELog (mkLog lvl c field msg)) = false) ->
  preserves K (ctxLog lvl field msg).
Proof.
  intros H. apply preserves_bind; [apply preserves_gets|].
  intros r. apply emit_no_complaint. apply H.
Qed.

Lemma update_no_complaint f : preserves K (update f).
Proof. apply preserves_modify. intros s Hs. exact Hs. Qed.

Lemma flush_no_complaint : preserves K flush.
Proof.
  apply preserves_bind; [apply preserves_gets|].
  intros r. destruct (_ =? _); [apply preserves_ret|].
  apply preserves_bind; [apply preserves_checked|].
  intros b. cbv zeta. apply preserves_bind; [apply update_no_complaint|].
  intros _. apply ctxLog_no_complaint. reflexivity.
Qed.

(** The size check lets through every line the scanner returns. *)
Lemma Run_stdout_line_no_complaint text :
  len text < bufio.MaxScanTokenSize -> preserves K (Run_stdout_line text).
Proof.
  intros Hshort. unfold Run_stdout_line. cbv zeta.
  replace (logBufferSize <? len (text ++ [newline])) with false.
  2:{ symmetry. apply Z.ltb_ge. pose proof (len_message text).
      pose proof MaxScanTokenSize_lt. lia. }
  apply preserves_bind; [apply preserves_gets|].
  intros r. apply preserves_bind.
  { destruct (_ <? _); [apply flush_no_complaint | apply preserves_ret]. }
  intros _. apply preserves_bind; [apply preserves_gets|].
  intros r'. apply preserves_bind; [apply preserves_checked|].
  intros b. apply preserves_bind; [apply update_no_complaint|].
  intros _. apply update_no_complaint.
Qed.

Lemma logErr_no_complaint e : preserves K (logErr e).
Proof.
  destruct e; [apply ctxLog_no_complaint; reflexivity | apply preserves_ret].
Qed.

Lemma logFatal_no_complaint err : preserves K (logFatal err).
Proof.
  apply preserves_bind; [apply emit_no_complaint; reflexivity|].
  intros _. apply preserves_exit.
Qed.

Lemma Run_no_complaint w : preserves K (Run executer SHELL w).
Proof.
  unfold Run. apply preserves_bind; [apply preserves_gets|].
  intros r. destruct (lookPathErr w (Command r)).
  { apply ctxLog_no_complaint. reflexivity. }
  cbv zeta.
  destruct (stdoutPipeErr w); [apply logFatal_no_complaint|].
  destruct (stderrPipeErr w); [apply logFatal_no_complaint|].
  apply preserves_bind; [apply update_no_complaint|].
  intros _. apply preserves_bind; [apply emit_no_complaint; reflexivity|].
  intros _. apply preserves_bind; [apply emit_no_complaint; reflexivity|].
  intros _. apply preserves_bind; [apply logErr_no_complaint|].
  intros _. apply preserves_bind.
  { apply preserves_forEach_Forall.
    eapply Forall_impl; [|apply Scan_scannable].
    intros [text|] Hsc; cbn [onEvent];
      [apply Run_stdout_line_no_complaint; exact Hsc | apply flush_no_complaint]. }
  intros _. apply preserves_bind; [apply logErr_no_complaint|].
  intros _. apply preserves_bind.
  { apply preserves_forEach. intros [text|]; cbn [onEvent];
      [apply ctxLog_no_complaint; reflexivity | apply flush_no_complaint]. }
  intros _. apply preserves_bind; [apply logErr_no_complaint|].
  intros _. apply preserves_bind; [apply emit_no_complaint; reflexivity|].
  intros _. apply preserves_bind; [apply logErr_no_complaint|].
  intros _. apply update_no_complaint.
Qed.

End NoComplaint.

(** X3. The size check of the reading loop never fires: however [Run]
    ends, and whatever the command prints, it has logged no "message
    received was too large".  The scanner returns no line of 64 KiB or
    more, and the check asks for more than 512 KiB. *)
Theorem size_check_never_fires (w : Firing) (p : Proc) :
  tooLargeRecords (trace (state_of (Run executer SHELL w p)))
  = tooLargeRecords (trace p).
Proof. apply (Run_no_complaint (trace p) w p). reflexivity. Qed.

(** X5. A run that found its command and returns leaves the job idle, on
    a sound buffer: it can be fired again.  Whether [Run] returns is the
    command's affair (it has to close its pipes and to end) and is not
    stated. *)
Theorem Run_returns_idle (w : Firing) (p p' : Proc) :
  buffer_ok (self p) ->
  lookPathErr w (Command (self p)) = None ->
  Run executer SHELL w p = Ret tt p' ->
  isRunning (self p') = false /\ buffer_ok (self p').
Proof.
  intros Hok HL Hret.
  destruct (stdoutPipeErr w) as [err|] eqn:H1.
  { exfalso. revert Hret. unfold Run. mstep. unfold gets at 1.
    rewrite HL, H1. cbn. discriminate. }
  destruct (stderrPipeErr w) as [err|] eqn:H2.
  { exfalso. revert Hret. unfold Run. mstep. unfold gets at 1.
    rewrite HL, H1, H2. cbn. discriminate. }
  destruct (Run_returns_idle_aux executer SHELL w p Hok HL H1 H2)
    as [q [Hq [Hflag Hokq]]].
  rewrite Hq in Hret. injection Hret as <-. split; assumption.
Qed.

End Oversized.

Lemma oversized_message_dropped_witness :
  events (stdout firing_too_long) = [Line (str "ok")]
  /\ scanErr (stdout firing_too_long) = Some bufio.ErrTooLong
  /\ Run (str "go") (str "/bin/ash") firing_too_long proc_fresh
     = Run (str "go") (str "/bin/ash")
           (cut_stdout firing_too_long [Line (str "ok")]) proc_fresh.
Proof.
  refine (oversized_message_dropped
            (str "go") (str "/bin/ash") firing_too_long proc_fresh
            [Line (str "ok")] [Line (str "later")] line_oversized _ _).
  - reflexivity.
  - vm_compute. reflexivity.
Defined.

Lemma Run_returns_idle_witness :
  isRunning
    (self (state_of (Run (str "go") (str "/bin/ash") firing_ok proc_fresh)))
  = false
  /\ buffer_ok
       (self (state_of (Run (str "go") (str "/bin/ash") firing_ok
                            proc_fresh))).
Proof.
  apply (Run_returns_idle (str "go") (str "/bin/ash") firing_ok proc_fresh).
  - apply createRunnable_buffer_ok.
  - reflexivity.
  - destruct (Run_returns_idle_aux (str "go") (str "/bin/ash") firing_ok
                proc_fresh (createRunnable_buffer_ok _ _ _)
                eq_refl eq_refl eq_refl) as [q [Hq _]].
    rewrite Hq. reflexivity.
Defined.

(** ** The identity of the job of a crontab line *)

Section Identity.

Variable cron_Parse : gostring -> option Err.

(** C6. Two crontab lines with the same command (the sixth token), on
    any schedule fields and with any arguments, give jobs with the same
    identity: on each line the parser builds a job whose command is that
    token and whose identity is the hexadecimal SHA-1 of that token, and
    offers it to the scheduler; nothing of the schedule or the arguments
    enters the identity. *)
Theorem job_identity_by_command
        (line1 line2 : gostring) (w1 w2 : World)
        (t1 t2 t3 t4 t5 u1 u2 u3 u4 u5 command : gostring)
        (more1 more2 : list gostring) :
  ignored line1 = false ->
  ignored line2 = false ->
  tokens line1 = t1 :: t2 :: t3 :: t4 :: t5 :: command :: more1 ->
  tokens line2 = u1 :: u2 :: u3 :: u4 :: u5 :: command :: more2 ->
  exists job1 job2,
    job1 = createRunnable command
                          (match more1 with [] => [] | args :: _ => args end)
                          (schedule_of t1 t2 t3 t4 t5)
    /\ job2 = createRunnable command
                             (match more2 with [] => [] | args :: _ => args end)
                             (schedule_of u1 u2 u3 u4 u5)
    /\ parseCrontabLine cron_Parse line1 w1
       = Ret tt (offer cron_Parse w1 job1)
    /\ parseCrontabLine cron_Parse line2 w2
       = Ret tt (offer cron_Parse w2 job2)
    /\ Command job1 = command
    /\ Command job2 = command
    /\ ID job1 = hex.EncodeToString (sha1.Sum command)
    /\ ID job2 = ID job1.
Proof.
  intros E1 E2 T1 T2.
  eexists. eexists.
  split; [reflexivity|]. split; [reflexivity|].
  split; [exact (parse_tokens_aux cron_Parse line1 w1 _ _ _ _ _ _ _ E1 T1)|].
  split; [exact (parse_tokens_aux cron_Parse line2 w2 _ _ _ _ _ _ _ E2 T2)|].
  repeat split.
Qed.

End Identity.

Lemma job_identity_by_command_witness :
  exists job1 job2,
    job1 = job_curl_a
    /\ job2 = job_curl_b
    /\ parseCrontabLine acceptAll line_curl_a World0
       = Ret tt (offer acceptAll World0 job1)
    /\ parseCrontabLine acceptAll line_curl_b world_two
       = Ret tt (offer acceptAll world_two job2)
    /\ Command job1 = str "curl"
    /\ Command job2 = str "curl"
    /\ ID job1 = hex.EncodeToString (sha1.Sum (str "curl"))
    /\ ID job2 = ID job1.
Proof.
  apply (job_identity_by_command
           acceptAll line_curl_a line_curl_b World0 world_two
           (str "*/5") (str "*") (str "*") (str "*") (str "*")
           (str "0") (str "2") (str "*") (str "*") (str "*")
           (str "curl")
           [str "http://example.com"] [str "-s http://example.org"]).
  - vm_compute. reflexivity.
  - vm_compute. reflexivity.
  - vm_compute. reflexivity.
  - vm_compute. reflexivity.
Defined.
